(** * gvisdata: a shallow embedding of [src/lib/gvisdata.js] in Rocq

    The library is JavaScript operating on a mutable object graph, so the
    embedding keeps a heap: arrays, plain objects and [Date] objects live in
    a store indexed by location, and every function of the library runs in
    a state-and-exception monad over that store.  A thrown exception keeps
    the store as it was when the exception was raised (so rows committed
    before a failure stay committed, as in the source).

    Modelling choices, all visible in the definitions below:
    - JavaScript numbers are modelled as integers ([Z]); a numeric string
      that does not denote an integer reads as NaN.
    - Strings are byte strings (code units 0..255).
    - The column descriptors produced by [tableDescriptionParser] are never
      written after construction; they are kept as Rocq records, a property
      read on a descriptor is a field projection and [for (key in col)]
      enumerates [column_props].
    - Thrown messages are kept as their constant text. *)

From stdpp Require Import base list strings.
From Stdlib Require Import ZArith Ascii.

(** ** JavaScript values and the heap *)

Record date := mkDate {
  getFullYear : Z; getMonth : Z; getDate : Z;
  getHours : Z; getMinutes : Z; getSeconds : Z;
  timeValue : Z;       (** [valueOf()], used by [<] *)
  dateString : string  (** [String(date)], host dependent *)
}.

Inductive val :=
| VUndef
| VNull
| VBool (b : bool)
| VNum (n : Z)
| VStr (s : string)
| VRef (l : nat).

Inductive obj :=
| OArr (vs : list val)
| OObj (props : list (string * val))
| ODate (d : date).

Definition heap := list obj.

Inductive exn :=
| TypeError
| RangeError
| Thrown (msg : string).

Inductive res (A : Type) :=
| Ok (a : A)
| Exc (e : exn).
Arguments Ok {A} a.
Arguments Exc {A} e.

(** The state-and-exception monad. *)
Definition M (A : Type) := heap -> res A * heap.

Definition ret {A} (a : A) : M A := fun h => (Ok a, h).

Definition bind {A B} (m : M A) (k : A -> M B) : M B :=
  fun h => match m h with
           | (Ok a, h') => k a h'
           | (Exc e, h') => (Exc e, h')
           end.

Notation "x <- c1 ;; c2" := (bind c1 (fun x => c2))
  (at level 100, c1 at next level, right associativity).
Notation "c1 ;;; c2" := (bind c1 (fun _ => c2))
  (at level 100, right associativity).

Definition throw {A} (e : exn) : M A := fun h => (Exc e, h).

(** Running a computation that only reads the heap. *)
Definition reading {A} (f : heap -> res A) : M A := fun h => (f h, h).

Definition lift {A} (r : res A) : M A := fun h => (r, h).

Definition alloc (o : obj) : M nat := fun h => (Ok (length h), h ++ [o]).

Definition read (l : nat) : M obj :=
  fun h => match h !! l with Some o => (Ok o, h) | None => (Exc TypeError, h) end.

Definition write (l : nat) (o : obj) : M unit := fun h => (Ok tt, <[l := o]> h).

Definition rbind {A B} (r : res A) (k : A -> res B) : res B :=
  match r with Ok a => k a | Exc e => Exc e end.

Notation "x <-? r ;; k" := (rbind r (fun x => k))
  (at level 100, r at next level, right associativity).

(** [for (x of xs) body]: a loop whose body may throw. *)
Fixpoint miter {A} (xs : list A) (body : A -> M unit) : M unit :=
  match xs with
  | [] => ret tt
  | x :: xs' => body x ;;; miter xs' body
  end.

Fixpoint mfold {A B} (xs : list A) (acc : B) (body : B -> A -> M B) : M B :=
  match xs with
  | [] => ret acc
  | x :: xs' => acc' <- body acc x ;; mfold xs' acc' body
  end.

Fixpoint rmap {A B} (f : A -> res B) (xs : list A) : res (list B) :=
  match xs with
  | [] => Ok []
  | x :: xs' => y <-? f x ;; ys <-? rmap f xs' ;; Ok (y :: ys)
  end.

(** ** Strings and numbers *)

Definition dquote : ascii := "034"%char.
Definition str1 (c : ascii) : string := String c EmptyString.
Definition nl : string := str1 "010"%char.
Definition tab : string := str1 "009"%char.

Fixpoint zdigits (fuel : nat) (n : Z) (acc : string) : string :=
  match fuel with
  | O => acc
  | S f =>
      let acc' := String (ascii_of_nat (48 + Z.to_nat (n mod 10))) acc in
      if (n <? 10)%Z then acc' else zdigits f (n / 10)%Z acc'
  end.

(** [String(n)] for an integer number. *)
Definition Z_to_string (z : Z) : string :=
  match z with
  | Z0 => "0"
  | Zpos p => zdigits (Pos.size_nat p) (Zpos p) ""
  | Zneg p => "-" +:+ zdigits (Pos.size_nat p) (Zpos p) ""
  end.

Definition nat_to_string (n : nat) : string := Z_to_string (Z.of_nat n).

Definition is_digit (c : ascii) : bool :=
  (48 <=? nat_of_ascii c) && (nat_of_ascii c <=? 57).

Fixpoint digits_value (s : string) (acc : Z) : option Z :=
  match s with
  | EmptyString => Some acc
  | String c s' =>
      if is_digit c then digits_value s' (10 * acc + Z.of_nat (nat_of_ascii c - 48))%Z
      else None
  end.

(** Array index keys: the canonical decimal form of a natural number. *)
Definition index_of_key (s : string) : option nat :=
  match s with
  | EmptyString => None
  | String c s' =>
      if (nat_of_ascii c =? 48) && negb (String.eqb s' "") then None
      else option_map Z.to_nat (digits_value s 0)
  end.

Definition is_js_space (c : ascii) : bool :=
  let n := nat_of_ascii c in
  (n =? 9) || (n =? 10) || (n =? 11) || (n =? 12) || (n =? 13) || (n =? 32) || (n =? 160).

Fixpoint trim_left (s : string) : string :=
  match s with
  | String c s' => if is_js_space c then trim_left s' else s
  | EmptyString => EmptyString
  end.

Fixpoint trim_right (s : string) : string :=
  match s with
  | String c s' =>
      match trim_right s' with
      | EmptyString => if is_js_space c then EmptyString else str1 c
      | r => String c r
      end
  | EmptyString => EmptyString
  end.

Definition trim (s : string) : string := trim_right (trim_left s).

Definition hex_digit (c : ascii) : option Z :=
  let n := nat_of_ascii c in
  if (48 <=? n) && (n <=? 57) then Some (Z.of_nat (n - 48))
  else if (65 <=? n) && (n <=? 70) then Some (Z.of_nat (n - 55))
  else if (97 <=? n) && (n <=? 102) then Some (Z.of_nat (n - 87))
  else None.

Fixpoint hex_value (s : string) (acc : Z) : option Z :=
  match s with
  | EmptyString => Some acc
  | String c s' =>
      match hex_digit c with
      | Some d => hex_value s' (16 * acc + d)%Z
      | None => None
      end
  end.

(** [ToNumber] on a string: empty (after trimming) reads as 0, an optionally
    signed decimal integer or a [0x] hexadecimal integer reads as that
    integer, anything else as NaN ([None]). *)
Definition string_to_number (s : string) : option Z :=
  match trim s with
  | EmptyString => Some 0%Z
  | String "0" (String x (String d rest)) =>
      if (nat_of_ascii x =? 120) || (nat_of_ascii x =? 88)
      then hex_value (String d rest) 0
      else digits_value (String "0" (String x (String d rest))) 0
  | String "-" (String d rest) => option_map Z.opp (digits_value (String d rest) 0)
  | String "+" (String d rest) => digits_value (String d rest) 0
  | t => digits_value t 0
  end.

(** [toLowerCase] on Latin-1 code units. *)
Definition lower_char (c : ascii) : ascii :=
  let n := nat_of_ascii c in
  if ((65 <=? n) && (n <=? 90)) || ((192 <=? n) && (n <=? 222) && negb (n =? 215))
  then ascii_of_nat (n + 32) else c.

Fixpoint toLowerCase (s : string) : string :=
  match s with
  | EmptyString => EmptyString
  | String c s' => String (lower_char c) (toLowerCase s')
  end.

Fixpoint str_lt (s t : string) : bool :=
  match s, t with
  | EmptyString, EmptyString => false
  | EmptyString, String _ _ => true
  | String _ _, EmptyString => false
  | String c s', String d t' =>
      if nat_of_ascii c <? nat_of_ascii d then true
      else if nat_of_ascii d <? nat_of_ascii c then false
      else str_lt s' t'
  end.

Fixpoint join (sep : string) (xs : list string) : string :=
  match xs with
  | [] => ""
  | [x] => x
  | x :: xs' => x +:+ sep +:+ join sep xs'
  end.

Fixpoint split_on (c : ascii) (s : string) : list string :=
  match s with
  | EmptyString => [""]
  | String d s' =>
      if Ascii.eqb c d then "" :: split_on c s'
      else match split_on c s' with
           | x :: xs => String d x :: xs
           | [] => [str1 d]
           end
  end.

(** [GetSubstitution] for a pattern without capture groups: [$$], [$&],
    [$`] and [$'] are expanded, every other [$] is literal. *)
Fixpoint get_substitution (rep matched before after : string) : string :=
  match rep with
  | String "$" (String "$" r) => "$" +:+ get_substitution r matched before after
  | String "$" (String "&" r) => matched +:+ get_substitution r matched before after
  | String "$" (String "`" r) => before +:+ get_substitution r matched before after
  | String "$" (String "'" r) => after +:+ get_substitution r matched before after
  | String c r => String c (get_substitution r matched before after)
  | EmptyString => EmptyString
  end.

(** [s.replace(pat, rep)] with a string pattern: first occurrence only. *)
Fixpoint replace_first_go (pat rep before rest : string) : string :=
  if String.prefix pat rest then
    let after := String.substring (String.length pat) (String.length rest) rest in
    before +:+ get_substitution rep pat before after +:+ after
  else
    match rest with
    | EmptyString => before
    | String c rest' => replace_first_go pat rep (before +:+ str1 c) rest'
    end.

Definition replace_first (pat rep s : string) : string := replace_first_go pat rep "" s.

(** [s.replace(/pat/g, rep)] for a literal, non-empty pattern. *)
Fixpoint replace_all_go (fuel : nat) (pat rep before rest : string) : string :=
  match fuel with
  | O => rest
  | S f =>
      if String.prefix pat rest then
        let after := String.substring (String.length pat) (String.length rest) rest in
        get_substitution rep pat before after
        +:+ replace_all_go f pat rep (before +:+ pat) after
      else
        match rest with
        | EmptyString => EmptyString
        | String c rest' => String c (replace_all_go f pat rep (before +:+ str1 c) rest')
        end
  end.

Definition replace_all (pat rep s : string) : string :=
  replace_all_go (S (String.length s)) pat rep "" s.



(** ** Value semantics *)

Section ValueSemantics.
Variable h : heap.

Definition typeof (v : val) : string :=
  match v with
  | VUndef => "undefined"
  | VNull => "object"
  | VBool _ => "boolean"
  | VNum _ => "number"
  | VStr _ => "string"
  | VRef _ => "object"
  end.

(** [DataTable._t]: [isString], [isArray], [isDate], [isObject], [type]. *)
Definition isString (v : val) : bool :=
  match v with VStr _ => true | _ => false end.

Definition isArray (v : val) : bool :=
  match v with
  | VRef l => match h !! l with Some (OArr _) => true | _ => false end
  | _ => false
  end.

Definition isDate (v : val) : bool :=
  match v with
  | VRef l => match h !! l with Some (ODate _) => true | _ => false end
  | _ => false
  end.

Definition isObject (v : val) : bool := String.eqb (typeof v) "object".

Definition type (v : val) : string :=
  if isString v then "string"
  else if isArray v then "array"
  else if isDate v then "date"
  else if isObject v then "object"
  else typeof v.

(** [ToBoolean]. *)
Definition truthy (v : val) : bool :=
  match v with
  | VUndef | VNull => false
  | VBool b => b
  | VNum n => negb (n =? 0)%Z
  | VStr s => negb (String.eqb s "")
  | VRef _ => true
  end.

Definition array_get (vs : list val) (key : string) : val :=
  if String.eqb key "length" then VNum (Z.of_nat (length vs))
  else match index_of_key key with
       | Some i => match vs !! i with Some v => v | None => VUndef end
       | None => VUndef
       end.

Fixpoint assoc (key : string) (kvs : list (string * val)) : option val :=
  match kvs with
  | [] => None
  | (k, v) :: kvs' => if String.eqb k key then Some v else assoc key kvs'
  end.

(** Property read [v[key]] with a string key. *)
Definition get (v : val) (key : string) : res val :=
  match v with
  | VUndef | VNull => Exc TypeError
  | VBool _ | VNum _ => Ok VUndef
  | VStr s =>
      if String.eqb key "length" then Ok (VNum (Z.of_nat (String.length s)))
      else match index_of_key key with
           | Some i => match String.get i s with Some c => Ok (VStr (str1 c)) | None => Ok VUndef end
           | None => Ok VUndef
           end
  | VRef l =>
      match h !! l with
      | Some (OArr vs) => Ok (array_get vs key)
      | Some (OObj kvs) => Ok (match assoc key kvs with Some x => x | None => VUndef end)
      | Some (ODate _) => Ok VUndef
      | None => Exc TypeError
      end
  end.

(** The keys a [for (k in v)] loop enumerates. *)
Definition keys (v : val) : list string :=
  match v with
  | VStr s => map nat_to_string (seq 0 (String.length s))
  | VRef l =>
      match h !! l with
      | Some (OArr vs) => map nat_to_string (seq 0 (length vs))
      | Some (OObj kvs) => map fst kvs
      | _ => []
      end
  | _ => []
  end.

(** [String(v)]; [fuel] bounds the nesting of arrays. *)
Fixpoint to_string (fuel : nat) (v : val) : res string :=
  match v with
  | VUndef => Ok "undefined"
  | VNull => Ok "null"
  | VBool true => Ok "true"
  | VBool false => Ok "false"
  | VNum n => Ok (Z_to_string n)
  | VStr s => Ok s
  | VRef l =>
      match h !! l with
      | Some (OArr vs) =>
          match fuel with
          | O => Exc RangeError
          | S f =>
              ss <-? rmap (fun x => match x with
                                    | VUndef | VNull => Ok ""
                                    | _ => to_string f x
                                    end) vs ;;
              Ok (join "," ss)
          end
      | Some (OObj _) => Ok "[object Object]"
      | Some (ODate d) => Ok (dateString d)
      | None => Exc TypeError
      end
  end.

Definition str_fuel : nat := S (length h).

Definition js_string (v : val) : res string := to_string str_fuel v.

(** [ToPrimitive]: a Date gives its string (default hint) or its time value
    (number hint); other objects go through [toString]. *)
Definition to_primitive (number_hint : bool) (v : val) : res val :=
  match v with
  | VRef l =>
      match h !! l with
      | Some (ODate d) => Ok (if number_hint then VNum (timeValue d) else VStr (dateString d))
      | _ => s <-? js_string v ;; Ok (VStr s)
      end
  | _ => Ok v
  end.

Definition to_number (v : val) : option Z :=
  match v with
  | VUndef => None
  | VNull => Some 0%Z
  | VBool b => Some (if b then 1 else 0)%Z
  | VNum n => Some n
  | VStr s => string_to_number s
  | VRef _ => None
  end.

Definition num_eq (x : Z) (o : option Z) : bool :=
  match o with Some y => (x =? y)%Z | None => false end.

(** Abstract equality on primitives other than booleans. *)
Definition loose_eq_base (a b : val) : bool :=
  match a, b with
  | (VUndef | VNull), (VUndef | VNull) => true
  | (VUndef | VNull), _ => false
  | _, (VUndef | VNull) => false
  | VNum x, VNum y => (x =? y)%Z
  | VStr s, VStr t => String.eqb s t
  | VNum x, VStr t => num_eq x (string_to_number t)
  | VStr s, VNum y => num_eq y (string_to_number s)
  | _, _ => false
  end.

Definition bool_to_num (v : val) : val :=
  match v with VBool b => VNum (if b then 1 else 0)%Z | _ => v end.

(** [a == b]. *)
Definition loose_eq (a b : val) : res bool :=
  match a, b with
  | VRef x, VRef y => Ok (x =? y)
  | VRef _, (VUndef | VNull) | (VUndef | VNull), VRef _ => Ok false
  | VRef _, _ =>
      pa <-? to_primitive false a ;; Ok (loose_eq_base (bool_to_num pa) (bool_to_num b))
  | _, VRef _ =>
      pb <-? to_primitive false b ;; Ok (loose_eq_base (bool_to_num a) (bool_to_num pb))
  | (VUndef | VNull), _ | _, (VUndef | VNull) => Ok (loose_eq_base a b)
  | _, _ => Ok (loose_eq_base (bool_to_num a) (bool_to_num b))
  end.

(** [a < b]. *)
Definition js_lt (a b : val) : res bool :=
  pa <-? to_primitive true a ;;
  pb <-? to_primitive true b ;;
  match pa, pb with
  | VStr s, VStr t => Ok (str_lt s t)
  | _, _ =>
      match to_number pa, to_number pb with
      | Some x, Some y => Ok (x <? y)%Z
      | _, _ => Ok false
      end
  end.

(** The global [escape()] on code units 0..255. *)
Definition escape_keeps (c : ascii) : bool :=
  let n := nat_of_ascii c in
  ((48 <=? n) && (n <=? 57)) || ((65 <=? n) && (n <=? 90)) || ((97 <=? n) && (n <=? 122))
  || (n =? 64) || (n =? 42) || (n =? 95) || (n =? 43) || (n =? 45) || (n =? 46) || (n =? 47).

Definition hex_char (n : nat) : ascii :=
  if n <? 10 then ascii_of_nat (48 + n) else ascii_of_nat (55 + n).

Fixpoint escape (s : string) : string :=
  match s with
  | EmptyString => EmptyString
  | String c s' =>
      if escape_keeps c then String c (escape s')
      else String "%" (String (hex_char (nat_of_ascii c / 16))
                        (String (hex_char (nat_of_ascii c mod 16)) (escape s')))
  end.

(** [DataTable._escapeValue]. *)
Definition escapeValue (v : val) : res string :=
  result <-? js_string v ;;
  let q := match String.index 0 "'" result with Some _ => str1 dquote | None => "'" end in
  let result := replace_all "%27" "'" (replace_all "%24" "$" (replace_all "%3E" ">"
                  (replace_all "%3C" "<" (escape result)))) in
  Ok (q +:+ result +:+ q).

(** [DataTable._escapeCustomProperties]. *)
Definition escapeCustomProperties (props : val) : res string :=
  l <-? rmap (fun key => p <-? get props key ;;
                         k <-? escapeValue (VStr key) ;;
                         x <-? escapeValue p ;; Ok (k +:+ ":" +:+ x)) (keys props) ;;
  Ok ("{" +:+ join "," l +:+ "}").

End ValueSemantics.

(** [DataTable._escapeValueForCSV]: [value.replace] exists on strings only. *)
Definition escapeValueForCSV (value : val) : res string :=
  match value with
  | VStr s => Ok (str1 dquote +:+ replace_first (str1 dquote) (str1 dquote +:+ str1 dquote) s
                  +:+ str1 dquote)
  | _ => Exc TypeError
  end.

(** [DataTable._escapeHTML]. *)
Definition escapeHTML (value : val) : res string :=
  match value with
  | VStr s => Ok (replace_all (str1 dquote) "&quot;" (replace_all "<" "&lt;"
                   (replace_all ">" "&gt;" (replace_all "&" "&amp;" s))))
  | _ => Exc TypeError
  end.

(** ** The value encoder: [DataTable.singleValueToJS] *)

(** What [singleValueToJS] returns: a string, or the fresh array
    [[js_value, formatted]] whose first element is itself such a result. *)
Inductive jsout :=
| JOStr (s : string)
| JOPair (v : jsout) (f : option string).

Definition elem (vs : list val) (i : nat) : val :=
  match vs !! i with Some v => v | None => VUndef end.

Definition is_nullish (v : val) : bool :=
  match v with VUndef | VNull => true | _ => false end.

Definition date_of (h : heap) (v : val) : option date :=
  match v with
  | VRef l => match h !! l with Some (ODate d) => Some d | _ => None end
  | _ => None
  end.

Definition type_is (t : val) (name : string) : bool :=
  match t with VStr s => String.eqb s name | _ => false end.

(** [escapeFn] is a parameter of the encoder; the recursive call on the
    underlying value of a [[v, f(, p)]] cell passes two arguments, so it
    uses the default escaper [escapeValue]. *)
Fixpoint singleValueToJS_go (h : heap) (fuel : nat) (value : val) (t : val)
    (escapeFn : val -> res string) : res jsout :=
  if isArray h value then
    match fuel, value with
    | S f, VRef l =>
        match h !! l with
        | Some (OArr vs) =>
            let len := length vs in
            if negb ((len =? 2) || (len =? 3)) || ((len =? 3) && negb (isObject (elem vs 2)))
            then Exc (Thrown "Wrong format for value and formatting")
            else if negb (isString (elem vs 1)) && negb (is_nullish (elem vs 1))
            then Exc (Thrown "Formatted value is not string")
            else
              js_value <-? singleValueToJS_go h f (elem vs 0) t (escapeValue h) ;;
              if is_nullish (elem vs 1) then Ok (JOPair js_value None)
              else fv <-? escapeFn (elem vs 1) ;; Ok (JOPair js_value (Some fv))
        | _ => Exc TypeError
        end
    | _, _ => Exc RangeError
    end
  else
    let t_value := type h value in
    if is_nullish value then Ok (JOStr "null")
    else if type_is t "boolean" then Ok (JOStr (if truthy value then "true" else "false"))
    else if type_is t "number" then
      (if String.eqb t_value "number"
       then s <-? js_string h value ;; Ok (JOStr s)
       else Exc (Thrown "Wrong type when expected number"))
    else if type_is t "string" then
      (if String.eqb t_value "array" then Exc (Thrown "Arrays are not allowed as string values")
       else s <-? escapeFn value ;; Ok (JOStr s))
    else if type_is t "date" then
      match date_of h value with
      | Some d => Ok (JOStr ("new Date(" +:+ join "," (map Z_to_string
                       [getFullYear d; getMonth d; getDate d]) +:+ ")"))
      | None => Exc (Thrown "Wrong type when expected Date")
      end
    else if type_is t "timeofday" then
      match date_of h value with
      | Some d => Ok (JOStr ("[" +:+ join "," (map Z_to_string
                       [getHours d; getMinutes d; getSeconds d]) +:+ "]"))
      | None => Exc (Thrown "Wrong type when expected Date")
      end
    else if type_is t "datetime" then
      match date_of h value with
      | Some d => Ok (JOStr ("new Date(" +:+ join "," (map Z_to_string
                       [getFullYear d; getMonth d; getDate d;
                        getHours d; getMinutes d; getSeconds d]) +:+ ")"))
      | None => Exc (Thrown "Wrong type when expected datetime")
      end
    else Exc (Thrown "Unsupported type").

Definition singleValueToJS (h : heap) (value t : val) (escapeFn : val -> res string)
  : res jsout := singleValueToJS_go h (str_fuel h) value t escapeFn.

(** [singleValueToJS(value, type)] with two arguments. *)
Definition singleValueToJS2 (h : heap) (value t : val) : res jsout :=
  singleValueToJS h value t (escapeValue h).

(** [String(x)] of an encoder result (an array joins with [","], a [null]
    element prints as the empty string). *)
Fixpoint jsout_string (j : jsout) : string :=
  match j with
  | JOStr s => s
  | JOPair v f => jsout_string v +:+ "," +:+ match f with Some s => s | None => "" end
  end.

(** ** Column descriptors: [DataTable.columnTypeParser] *)

Record coldesc := mkColdesc {
  cd_id : val; cd_label : val; cd_type : string; cd_custom : val
}.

Record column := mkColumn {
  col_id : val; col_label : val; col_type : string; col_custom : val;
  col_depth : nat; col_container : string
}.

(** [parsedCol.depth = depth; parsedCol.container = container]. *)
Definition place (c : coldesc) (depth : nat) (container : string) : column :=
  mkColumn (cd_id c) (cd_label c) (cd_type c) (cd_custom c) depth container.

(** The enumerable properties of a descriptor, in creation order. *)
Definition column_props (c : column) : list (string * val) :=
  [("id", col_id c); ("label", col_label c); ("type", VStr (col_type c));
   ("custom_properties", col_custom c); ("depth", VNum (Z.of_nat (col_depth c)));
   ("container", VStr (col_container c))].

Definition validTypes : list string :=
  ["string"; "number"; "boolean"; "date"; "datetime"; "timeofday"].

Definition array_contents (h : heap) (v : val) : list val :=
  match v with
  | VRef l => match h !! l with Some (OArr vs) => vs | _ => [] end
  | _ => []
  end.

Definition columnTypeParser (description : val) : M coldesc :=
  h <- reading (fun h => Ok h) ;;
  if negb (truthy description) then throw (Thrown "Description error: empty description given")
  else
  let t_desc := type h description in
  if negb (String.eqb t_desc "array") && negb (String.eqb t_desc "string")
  then throw (Thrown "Description error: expected either string or array")
  else
  let ds := if String.eqb t_desc "string" then [description] else array_contents h description in
  (* for (var i in description.slice(0,2)) *)
  if negb (forallb isString (take 2 ds))
  then throw (Thrown "Description error: expected array of strings")
  else
  cp <- alloc (OObj []) ;;
  let d0 := mkColdesc (elem ds 0) (elem ds 0) "string" (VRef cp) in
  if length ds <=? 1 then
    (if existsb (String.eqb (cd_type d0)) validTypes then ret d0
     else throw (Thrown "Description error: unsupported type"))
  else
  ty <- lift (match elem ds 1 with VStr s => Ok (toLowerCase s) | _ => Exc TypeError end) ;;
  r <- (if length ds <=? 2 then ret (mkColdesc (elem ds 0) (elem ds 0) ty (VRef cp))
        else if length ds <=? 3 then ret (mkColdesc (elem ds 0) (elem ds 2) ty (VRef cp))
        else if negb (isObject (elem ds 3))
        then throw (Thrown "Description error: expected custom properties object")
        else if 4 <? length ds then throw (Thrown "Description error: array of length > 4")
        else ret (mkColdesc (elem ds 0) (elem ds 2) ty (elem ds 3))) ;;
  if existsb (String.eqb (cd_type r)) validTypes then ret r
  else throw (Thrown "Description error: unsupported type").

(** [DataTable._isColumnDesc]. *)
Definition isColumnDesc (h : heap) (value : val) : bool :=
  if isString value then true
  else if isArray h value then
    let vs := array_contents h value in
    if length vs =? 1 then false
    else match elem vs 1 with
         | VStr s => existsb (String.eqb s)
                       ["string"; "number"; "boolean"; "date"; "timeofday"; "datetime"]
         | _ => false
         end
  else false.

(** [tableDescription[i].unshift(i)]. *)
Definition unshift (v : val) (x : val) : M unit :=
  match v with
  | VRef l => o <- read l ;;
              match o with
              | OArr vs => write l (OArr (x :: vs))
              | _ => throw TypeError
              end
  | _ => throw TypeError
  end.

Definition get_m (v : val) (key : string) : M val := reading (fun h => get h v key).

(** The body of the innermost-level loop of [tableDescriptionParser], for
    the key [i]: an array value gets [i] prepended in place
    ([tableDescription[i].unshift(i)]), any other value is parsed as
    [[i, tableDescription[i]]]. *)
Definition innermost_column (tableDescription : val) (depth : nat) (i : string) : M column :=
  x <- get_m tableDescription i ;;
  h <- reading (fun h => Ok h) ;;
  parsedCol <- (if isArray h x
                then unshift x (VStr i) ;;; columnTypeParser x
                else a <- alloc (OArr [VStr i; x]) ;; columnTypeParser (VRef a)) ;;
  ret (place parsedCol depth "dict").

(** [DataTable.tableDescriptionParser]; [fuel] bounds the recursion, whose
    exhaustion is the stack overflow ([RangeError]) of a cyclic description. *)
Fixpoint tableDescriptionParser_go (fuel : nat) (tableDescription : val) (depth : nat)
  : M (list column) :=
  match fuel with
  | O => throw RangeError
  | S fuel' =>
  h <- reading (fun h => Ok h) ;;
  if isColumnDesc h tableDescription then
    parsedCol <- columnTypeParser tableDescription ;;
    ret [place parsedCol depth "scalar"]
  else if negb (isArray h tableDescription) && negb (isObject tableDescription) then
    throw (Thrown "Expected an iterable object")
  else if negb (String.eqb (type h tableDescription) "object") then
    columns <- mfold (keys h tableDescription) [] (fun columns i =>
      x <- get_m tableDescription i ;;
      parsedCol <- columnTypeParser x ;;
      ret (columns ++ [place parsedCol depth "iter"])) ;;
    if length columns =? 0 then throw (Thrown "Description iterable objects should not be empty.")
    else ret columns
  else
  let props := keys h tableDescription in
  if length props =? 0 then throw (Thrown "Empty objects are not allowed inside description")
  else
  let k0 := match props with k :: _ => k | [] => "" end in
  v0 <- get_m tableDescription k0 ;;
  h <- reading (fun h => Ok h) ;;
  if negb (length props =? 1)
     || (isArray h v0 && isString (elem (array_contents h v0) 0)
         && (length (array_contents h v0) <? 4)) then
    (* This is the most inner object. *)
    mfold props [] (fun columns i =>
      parsedCol <- innermost_column tableDescription depth i ;;
      ret (columns ++ [parsedCol]))
  else
    parsedCol <- columnTypeParser (VStr k0) ;;
    result <- tableDescriptionParser_go fuel' v0 (S depth) ;;
    ret (place parsedCol depth "dict" :: result)
  end.

(** ** Writing properties *)

Fixpoint props_insert_index (kvs : list (string * val)) (n : nat) (key : string) (v : val)
  : list (string * val) :=
  match kvs with
  | [] => [(key, v)]
  | (k, x) :: r =>
      match index_of_key k with
      | Some m => if n <? m then (key, v) :: kvs else (k, x) :: props_insert_index r n key v
      | None => (key, v) :: kvs
      end
  end.

(** [o[key] = v] on a plain object: an existing key keeps its place; a new
    array-index key goes among the leading index keys in ascending order;
    any other new key goes last (the [for-in] order of JavaScript). *)
Definition props_set (kvs : list (string * val)) (key : string) (v : val)
  : list (string * val) :=
  if existsb (fun kv => String.eqb (fst kv) key) kvs
  then map (fun kv => if String.eqb (fst kv) key then (fst kv, v) else kv) kvs
  else match index_of_key key with
       | Some n => props_insert_index kvs n key v
       | None => kvs ++ [(key, v)]
       end.

Definition array_set (vs : list val) (i : nat) (v : val) : list val :=
  if i <? length vs then <[i := v]> vs else vs ++ repeat VUndef (i - length vs) ++ [v].

(** The library names array elements only by index. *)
Definition obj_set (o : obj) (key : string) (v : val) : obj :=
  match o with
  | OObj kvs => OObj (props_set kvs key v)
  | OArr vs => match index_of_key key with Some i => OArr (array_set vs i v) | None => o end
  | ODate _ => o
  end.

(** [target[key] = v] (non-strict code: a write on a primitive is ignored). *)
Definition set_m (target : val) (key : string) (v : val) : M unit :=
  match target with
  | VRef l => o <- read l ;; write l (obj_set o key v)
  | VUndef | VNull => throw TypeError
  | _ => ret tt
  end.

(** [ToPropertyKey]. *)
Definition to_key (v : val) : M string := reading (fun h => js_string h v).

(** [arr.push(v)]. *)
Definition push_m (l : nat) (v : val) : M unit :=
  o <- read l ;;
  match o with
  | OArr vs => write l (OArr (vs ++ [v]))
  | _ => throw TypeError
  end.

Definition get_heap : M heap := reading (fun h => Ok h).

(** [DataTable._o.clone]: a deep copy; [fuel] bounds the nesting. *)
Fixpoint clone (fuel : nat) (obj0 : val) : M val :=
  match fuel with
  | O => throw RangeError
  | S f =>
      h <- get_heap ;;
      if negb (isObject obj0) then l <- alloc (OObj []) ;; ret (VRef l)
      else
        newObj <- alloc (if isArray h obj0 then OArr [] else OObj []) ;;
        miter (keys h obj0) (fun i =>
          x <- get_m obj0 i ;;
          c <- (if truthy x && String.eqb (typeof x) "object" then clone f x else ret x) ;;
          set_m (VRef newObj) i c) ;;;
        ret (VRef newObj)
  end.

Definition clone_top (v : val) : M val := h <- get_heap ;; clone (str_fuel h) v.

(** ** The table *)

Record table := mkTable {
  t_columns : list column;   (** [this._columns] *)
  t_data : nat;              (** [this._data], an array of [[cells, rowProperties]] *)
  t_custom : val             (** [this.customProperties] *)
}.

Definition last_column (t : table) : M column :=
  match last (t_columns t) with Some c => ret c | None => throw TypeError end.

(** The body of the loop of [_innerAppendData] over an iterable
    fragment: the element at key [i] goes to the column [colIndex], and
    the next element to the next column. *)
Definition iter_cell (t : table) (prevColValues data : val) (colIndex : nat) (i : string)
  : M nat :=
  if length (t_columns t) <=? colIndex then throw (Thrown "Too many elements given in data")
  else
    cells <- get_m prevColValues "0" ;;
    key <- to_key (match nth_error (t_columns t) colIndex with
                   | Some c => col_id c | None => VUndef end) ;;
    x <- get_m data i ;;
    set_m cells key x ;;;
    ret (S colIndex).

(** [this._innerAppendData(prevColValues, data, colIndex)].  The guard
    [colIndex >= this._columns] compares a number with an array of objects,
    whose primitive value ["[object Object],..."] is NaN as a number: it is
    always false and has no effect. *)
Fixpoint innerAppendData (t : table) (fuel : nat) (prevColValues data : val) (colIndex : nat)
  : M unit :=
  match fuel with
  | O => throw RangeError
  | S f =>
  match nth_error (t_columns t) colIndex with
  | None => throw TypeError
  | Some col =>
  if String.eqb (col_container col) "scalar" then
    cells <- get_m prevColValues "0" ;;
    key <- to_key (col_id col) ;;
    set_m cells key data ;;;
    push_m (t_data t) prevColValues
  else if String.eqb (col_container col) "iter" then
    h <- get_heap ;;
    if negb (isArray h data) then throw (Thrown "Expected iterable object")
    else
      _ <- mfold (keys h data) colIndex (iter_cell t prevColValues data) ;;
      push_m (t_data t) prevColValues
  else
    h <- get_heap ;;
    if negb (isObject data) || isArray h data
    then throw (Thrown "Expected dictionary at current level")
    else
      lastcol <- last_column t ;;
      if col_depth col =? col_depth lastcol then
        (* for (key in this._columns[colIndex]) *)
        miter (column_props col) (fun kv =>
          curId <- get_m (snd kv) "id" ;;
          k <- to_key curId ;;
          x <- get_m data k ;;
          if negb (is_nullish x) then
            cells <- get_m prevColValues "0" ;;
            set_m cells k x
          else ret tt) ;;;
        push_m (t_data t) prevColValues
      else if length (keys h data) =? 0 then
        push_m (t_data t) prevColValues
      else
        miter (keys h data) (fun key =>
          cells <- get_m prevColValues "0" ;;
          colValues <- clone_top cells ;;
          idk <- to_key (col_id col) ;;
          set_m colValues idk (VStr key) ;;;
          rowcp <- get_m prevColValues "1" ;;
          np <- alloc (OArr [colValues; rowcp]) ;;
          x <- get_m data key ;;
          innerAppendData t f (VRef np) x (S colIndex))
  end
  end.

(** [[{}, customProperties]]. *)
Definition new_row (customProperties : val) : M val :=
  cells <- alloc (OObj []) ;;
  pair <- alloc (OArr [VRef cells; customProperties]) ;;
  ret (VRef pair).

Definition append_fuel (t : table) : nat := S (length (t_columns t)).

(** [this.appendData(data, customProperties)]. *)
Definition appendData (t : table) (data customProperties : val) : M unit :=
  lastcol <- last_column t ;;
  if negb (truthy (VNum (Z.of_nat (col_depth lastcol)))) then
    h <- get_heap ;;
    miter (keys h data) (fun i =>
      element <- (if isArray h data then get_m data i else ret (VStr i)) ;;
      prev <- new_row customProperties ;;
      innerAppendData t (append_fuel t) prev element 0)
  else
    prev <- new_row customProperties ;;
    innerAppendData t (append_fuel t) prev data 0.

(** [this.numberOfRows()]. *)
Definition numberOfRows (t : table) : M nat :=
  o <- read (t_data t) ;;
  match o with OArr vs => ret (length vs) | _ => throw TypeError end.

(** [this.loadData(data, customProperties)]: [this._data = []], then
    [appendData]; the table with its new row array is returned. *)
Definition loadData (t : table) (data customProperties : val) : M table :=
  l <- alloc (OArr []) ;;
  let t' := mkTable (t_columns t) l (t_custom t) in
  appendData t' data customProperties ;;;
  ret t'.

Definition arg (args : list val) (n : nat) : val := elem args n.

(** [new DataTable(tableDescription, data, customProperties)]. *)
Definition newDataTable (args : list val) : M table :=
  h <- get_heap ;;
  columns <- tableDescriptionParser_go (str_fuel h) (arg args 0) 0 ;;
  d <- alloc (OArr []) ;;
  cp <- alloc (OObj []) ;;
  let custom := if (2 <? length args) && negb (is_nullish (arg args 2)) then arg args 2 else VRef cp in
  let t := mkTable columns d custom in
  if (1 <? length args) && negb (is_nullish (arg args 1)) then loadData t (arg args 1) VNull
  else ret t.

(** ** Row ordering: [this.preparedData(orderBy)] *)

(** The values a [for (i in v)] loop reads as [v[i]]. *)
Definition for_in_values (h : heap) (v : val) : res (list val) :=
  rmap (get h v) (keys h v).

(** The comparator passed to [sort]. *)
Definition row_compare (h : heap) (properSortKeys : list (val * Z)) (row1 row2 : val)
  : res Z :=
  let fix go (ks : list (val * Z)) : res Z :=
    match ks with
    | [] => Ok 0%Z
    | (key, ascMult) :: ks' =>
        k <-? js_string h key ;;
        c1 <-? get h row1 "0" ;; a <-? get h c1 k ;;
        c2 <-? get h row2 "0" ;; b <-? get h c2 k ;;
        eq <-? loose_eq h a b ;;
        cmpResult <-? (if eq then Ok 0%Z
                       else lt <-? js_lt h a b ;; Ok (ascMult * (if lt then -1 else 1))%Z) ;;
        if negb (cmpResult =? 0)%Z then Ok cmpResult else go ks'
    end in
  go properSortKeys.

(** [SortCompare]: undefined elements sort last without calling the
    comparator. *)
Definition sort_compare (cmp : val -> val -> res Z) (x y : val) : res Z :=
  match x, y with
  | VUndef, VUndef => Ok 0%Z
  | VUndef, _ => Ok 1%Z
  | _, VUndef => Ok (-1)%Z
  | _, _ => cmp x y
  end.

Fixpoint insert_by (cmp : val -> val -> res Z) (x : val) (sorted : list val) : res (list val) :=
  match sorted with
  | [] => Ok [x]
  | y :: ys =>
      c <-? cmp y x ;;
      if (0 <? c)%Z then Ok (x :: y :: ys)
      else r <-? insert_by cmp x ys ;; Ok (y :: r)
  end.

Fixpoint sort_go (cmp : val -> val -> res Z) (acc xs : list val) : res (list val) :=
  match xs with
  | [] => Ok acc
  | x :: xs' => acc' <-? insert_by cmp x acc ;; sort_go cmp acc' xs'
  end.

(** [arr.sort(cmp)]: in place, then returns [arr].  [Array.prototype.sort]
    is stable; it is modelled as a stable insertion sort, which agrees with
    every stable sort when the comparator is consistent. *)
Definition sort_inplace (cmp : heap -> val -> val -> res Z) (arr : val) : M val :=
  match arr with
  | VRef l =>
      o <- read l ;;
      h <- get_heap ;;
      match o with
      | OArr vs => sorted <- lift (sort_go (sort_compare (cmp h)) [] vs) ;;
                   write l (OArr sorted) ;;;
                   ret arr
      | _ => throw TypeError
      end
  | _ => throw TypeError
  end.

Definition asc_or_desc (h : heap) (x : val) : res bool :=
  s <-? get h x "1" ;;
  match s with
  | VStr s => Ok (String.eqb (toLowerCase s) "asc" || String.eqb (toLowerCase s) "desc")
  | _ => Exc TypeError
  end.

(** The sort keys built from [orderBy]. *)
Definition proper_sort_keys (h : heap) (orderBy : val) : res (list (val * Z)) :=
  (* isString(orderBy) || (isArray(orderBy && orderBy.length == 2) && ...) *)
  inner <-? (if truthy orderBy
             then len <-? get h orderBy "length" ;; b <-? loose_eq h len (VNum 2) ;; Ok (VBool b)
             else Ok orderBy) ;;
  wrap <-? (if isString orderBy then Ok true
            else if isArray h inner then asc_or_desc h orderBy
            else Ok false) ;;
  elems <-? (if wrap then Ok [orderBy] else for_in_values h orderBy) ;;
  rmap (fun x =>
    if isString x then Ok (x, 1%Z)
    else
      two <-? (if isArray h x then len <-? get h x "length" ;; loose_eq h len (VNum 2)
               else Ok false) ;;
      ok <-? (if two then asc_or_desc h x else Ok false) ;;
      if ok then
        k <-? get h x "0" ;; d <-? get h x "1" ;;
        match d with
        | VStr d => Ok (k, if String.eqb (toLowerCase d) "asc" then 1%Z else (-1)%Z)
        | _ => Exc TypeError
        end
      else Exc (Thrown "Expected array with second value: 'asc' or 'desc'")) elems.

Definition preparedData (t : table) (orderBy : val) : M val :=
  orderBy <- (if is_nullish orderBy then l <- alloc (OArr []) ;; ret (VRef l) else ret orderBy) ;;
  len <- get_m orderBy "length" ;;
  if negb (truthy len) then ret (VRef (t_data t))
  else
    h <- get_heap ;;
    properSortKeys <- lift (proper_sort_keys h orderBy) ;;
    copy <- clone_top (VRef (t_data t)) ;;
    sort_inplace (fun h => row_compare h properSortKeys) copy.

(** ** Renderers *)

(** [columnOrder = []; for (i in this._columns) columnOrder.push(id)]. *)
Definition default_columnOrder (t : table) : M val :=
  l <- alloc (OArr (map col_id (t_columns t))) ;; ret (VRef l).

(** [colDict[k]]: [colDict] maps each id to its descriptor, a later column
    overriding an earlier one with the same id. *)
Definition colDict_get (h : heap) (t : table) (k : val) : res column :=
  key <-? js_string h k ;;
  ks <-? rmap (fun c => s <-? js_string h (col_id c) ;; Ok (s, c)) (t_columns t) ;;
  match last (filter (fun sc => String.eqb (fst sc) key) ks) with
  | Some (_, c) => Ok c
  | None => Exc TypeError   (* a property read on undefined *)
  end.

Definition has_props (h : heap) (v : val) : bool := negb (length (keys h v) =? 0).

(** [columnOrder[columnOrder.length-1]]. *)
Definition last_of (h : heap) (co : val) : res val :=
  len <-? get h co "length" ;;
  let k := match to_number len with Some n => Z_to_string (n - 1) | None => "NaN" end in
  get h co k.

Definition is_date_type (ty : string) : bool :=
  existsb (String.eqb ty) ["date"; "datetime"; "timeofday"].

(** The [cols] part of [toJSON].  The source builds each entry from a
    [clone] of the descriptor; the copy is read only for the fields used
    here, which equal the descriptor's. *)
Definition json_cols (h : heap) (t : table) (co : val) : res (list string) :=
  ks <-? for_in_values h co ;;
  rmap (fun k =>
    c <-? colDict_get h t k ;;
    id <-? escapeValue h (col_id c) ;;
    label <-? escapeValue h (col_label c) ;;
    cp <-? (if has_props h (col_custom c)
            then p <-? escapeCustomProperties h (col_custom c) ;; Ok (",p:" +:+ p)
            else Ok "") ;;
    Ok ("{id:" +:+ id +:+ ",label:" +:+ label +:+ ",type:'" +:+ col_type c +:+ "'" +:+ cp +:+ "}"))
    ks.

(** One cell of a [toJSON] row; [""] is the omitted cell. *)
Definition json_cell (h : heap) (t : table) (co row : val) (k : val) : res string :=
  key <-? js_string h k ;;
  value <-? get h row key ;;
  lastk <-? last_of h co ;;
  omit <-? (if negb (truthy value) then ne <-? loose_eq h k lastk ;; Ok (negb ne) else Ok false) ;;
  if omit then Ok ""
  else
    c <-? colDict_get h t k ;;
    j <-? singleValueToJS2 h value (VStr (col_type c)) ;;
    match j with
    | JOPair v0 f =>
        len <-? get h value "length" ;;
        three <-? loose_eq h len (VNum 3) ;;
        if three then
          p <-? get h value "2" ;;
          ps <-? escapeCustomProperties h p ;;
          match f with
          | None => Ok ("{v:" +:+ jsout_string v0 +:+ ",p:" +:+ ps +:+ "}")
          | Some _ => Ok ("{v:" +:+ jsout_string j +:+ ",f:" +:+ ps +:+ ",p:}")
          end
        else Ok ("{v:" +:+ jsout_string v0 +:+ ",f:"
                 +:+ match f with Some s => s | None => "null" end +:+ "}")
    | JOStr s => Ok ("{v:" +:+ s +:+ "}")
    end.

Definition json_row (h : heap) (t : table) (co : val) (pr : val) : res string :=
  row <-? get h pr "0" ;;
  cp <-? get h pr "1" ;;
  ks <-? for_in_values h co ;;
  cellJSON <-? rmap (json_cell h t co row) ks ;;
  if has_props h cp then
    p <-? escapeCustomProperties h cp ;;
    Ok ("{c:[" +:+ join "," cellJSON +:+ "],p:" +:+ p +:+ "}")
  else Ok ("{c:[" +:+ join "," cellJSON +:+ "]}").

(** [this.toJSON(columnOrder, orderBy)]. *)
Definition toJSON (t : table) (args : list val) : M string :=
  co <- (if (length args =? 0) || is_nullish (arg args 0) then default_columnOrder t
         else ret (arg args 0)) ;;
  h <- get_heap ;;
  colJSON <- lift (json_cols h t co) ;;
  prepData <- preparedData t (arg args 1) ;;
  h <- get_heap ;;
  rowJSON <- lift (prs <-? for_in_values h prepData ;; rmap (json_row h t co) prs) ;;
  gen <- lift (if has_props h (t_custom t)
               then p <-? escapeCustomProperties h (t_custom t) ;; Ok (",p:" +:+ p)
               else Ok "") ;;
  ret ("{cols:[" +:+ join "," colJSON +:+ "],rows:[" +:+ join "," rowJSON +:+ "]" +:+ gen +:+ "}").

(** [for (i in v)] with both the key and [v[i]]. *)
Definition for_in_entries (h : heap) (v : val) : res (list (string * val)) :=
  rmap (fun k => x <-? get h v k ;; Ok (k, x)) (keys h v).

Definition jscode_cols (h : heap) (t : table) (name : string) (co : val) : res string :=
  es <-? for_in_entries h co ;;
  ss <-? rmap (fun ik =>
    c <-? colDict_get h t (snd ik) ;;
    label <-? escapeValue h (col_label c) ;;
    id <-? escapeValue h (col_id c) ;;
    props <-? (if has_props h (col_custom c)
               then p <-? escapeCustomProperties h (col_custom c) ;;
                    Ok (name +:+ ".setColumnProperties(" +:+ fst ik +:+ ", " +:+ p +:+ ");" +:+ nl)
               else Ok "") ;;
    Ok (name +:+ ".addColumn('" +:+ col_type c +:+ "', " +:+ label +:+ ", " +:+ id +:+ ");" +:+ nl
        +:+ props)) es ;;
  Ok (String.concat "" ss).

Definition jscode_cell (h : heap) (t : table) (name i : string) (row : val) (jc : string * val)
  : res string :=
  let (j, col) := jc in
  if negb (truthy row) then Ok "" else
  key <-? js_string h col ;;
  rc <-? get h row key ;;
  if is_nullish rc then Ok "" else
  three <-? (if isArray h rc then len <-? get h rc "length" ;; loose_eq h len (VNum 3)
             else Ok false) ;;
  cellCp <-? (if three then p <-? get h rc "2" ;; ps <-? escapeCustomProperties h p ;;
                            Ok (", " +:+ ps)
              else Ok "") ;;
  c <-? colDict_get h t col ;;
  value <-? singleValueToJS2 h rc (VStr (col_type c)) ;;
  match value with
  | JOPair v0 f =>
      Ok (name +:+ ".setCell(" +:+ i +:+ ", " +:+ j +:+ ", " +:+ jsout_string v0 +:+ ", "
          +:+ match f with Some s => s | None => "null" end +:+ cellCp +:+ ");" +:+ nl)
  | JOStr s => Ok (name +:+ ".setCell(" +:+ i +:+ ", " +:+ j +:+ ", " +:+ s +:+ ");" +:+ nl)
  end.

Definition jscode_row (h : heap) (t : table) (name : string) (co : val) (ip : string * val)
  : res string :=
  let (i, pr) := ip in
  row <-? get h pr "0" ;;
  cp <-? get h pr "1" ;;
  es <-? for_in_entries h co ;;
  cells <-? rmap (jscode_cell h t name i row) es ;;
  rp <-? (if has_props h cp
          then p <-? escapeCustomProperties h cp ;;
               Ok (name +:+ ".setRowProperties(" +:+ i +:+ ", " +:+ p +:+ ");" +:+ nl)
          else Ok "") ;;
  Ok (String.concat "" cells +:+ rp).

(** [this.toJSCode(name, columnOrder, orderBy)]. *)
Definition toJSCode (t : table) (args : list val) : M string :=
  co <- (if (length args =? 1) || is_nullish (arg args 1) then default_columnOrder t
         else ret (arg args 1)) ;;
  h <- get_heap ;;
  name <- lift (js_string h (arg args 0)) ;;
  let jscode := "var " +:+ name +:+ " = new google.visualization.DataTable();" +:+ nl in
  tp <- lift (if has_props h (t_custom t)
              then p <-? escapeCustomProperties h (t_custom t) ;;
                   Ok (name +:+ ".setTableProperties(" +:+ p +:+ ");" +:+ nl)
              else Ok "") ;;
  cols <- lift (jscode_cols h t name co) ;;
  n <- numberOfRows t ;;
  let jscode := jscode +:+ tp +:+ cols +:+ name +:+ ".addRows(" +:+ nat_to_string n +:+ ");" +:+ nl in
  prepData <- preparedData t (arg args 2) ;;
  h <- get_heap ;;
  rows <- lift (es <-? for_in_entries h prepData ;; rmap (jscode_row h t name co) es) ;;
  ret (jscode +:+ String.concat "" rows).

(** [arr.join(separator)]: an undefined separator is [","]. *)
Definition join_sep (h : heap) (separator : val) : res string :=
  match separator with VUndef => Ok "," | _ => js_string h separator end.

Definition csv_cell (h : heap) (t : table) (row col : val) : res string :=
  key <-? js_string h col ;;
  rc <-? get h row key ;;
  c <-? colDict_get h t col ;;
  value <-? (if negb (is_nullish rc)
             then singleValueToJS h rc (VStr (col_type c)) escapeValueForCSV
             else Ok (JOStr (str1 dquote +:+ str1 dquote))) ;;
  match value with
  | JOPair v0 f =>
      if is_date_type (col_type c) then Ok (match f with Some s => s | None => "" end)
      else Ok (jsout_string v0)
  | JOStr s =>
      if negb (String.eqb s (str1 dquote +:+ str1 dquote)) && is_date_type (col_type c)
      then Ok (str1 dquote +:+ s +:+ str1 dquote)
      else Ok s
  end.

(** [this.toCSV(columnOrder, orderBy, separator)]. *)
Definition toCSV (t : table) (args : list val) : M string :=
  let separator := if length args <? 3 then VStr ", " else arg args 2 in
  orderBy <- (if length args <? 2 then l <- alloc (OArr []) ;; ret (VRef l)
              else ret (arg args 1)) ;;
  let co0 := if length args <? 1 then VNull else arg args 0 in
  co <- (if is_nullish co0 then default_columnOrder t else ret co0) ;;
  h <- get_heap ;;
  sep <- lift (join_sep h separator) ;;
  columnLine <- lift (ks <-? for_in_values h co ;;
                      ls <-? rmap (fun k => c <-? colDict_get h t k ;;
                                            escapeValueForCSV (col_label c)) ks ;;
                      Ok (join sep ls)) ;;
  prepData <- preparedData t orderBy ;;
  h <- get_heap ;;
  rowList <- lift (prs <-? for_in_values h prepData ;;
                   rmap (fun pr => row <-? get h pr "0" ;;
                                   ks <-? for_in_values h co ;;
                                   cells <-? rmap (csv_cell h t row) ks ;;
                                   Ok (join sep cells)) prs) ;;
  ret (columnLine +:+ nl +:+ join nl rowList).

(** [this.toTSVExcel(columnOrder, orderBy)]. *)
Definition toTSVExcel (t : table) (args : list val) : M string :=
  orderBy <- (if length args <? 2 then l <- alloc (OArr []) ;; ret (VRef l)
              else ret (arg args 1)) ;;
  let co := if length args <? 1 then VNull else arg args 0 in
  toCSV t [co; orderBy; VStr tab].

(** [template.replace(/%s/g, s)]. *)
Definition fill (template s : string) : string := replace_all "%s" s template.

Definition html_cell (h : heap) (t : table) (row col : val) : res string :=
  key <-? js_string h col ;;
  rc <-? get h row key ;;
  c <-? colDict_get h t col ;;
  value <-? (if negb (is_nullish rc) then singleValueToJS2 h rc (VStr (col_type c))
             else Ok (JOStr "")) ;;
  e <-? match value with
        | JOPair _ f => escapeHTML (match f with Some s => VStr s | None => VNull end)
        | JOStr s => escapeHTML (VStr s)
        end ;;
  Ok (fill "<td>%s</td>" e).

(** [this.toHTML(columnOrder, orderBy)]. *)
Definition toHTML (t : table) (args : list val) : M string :=
  orderBy <- (if length args <? 2 then l <- alloc (OArr []) ;; ret (VRef l)
              else ret (arg args 1)) ;;
  let co0 := if length args <? 1 then VNull else arg args 0 in
  co <- (if is_nullish co0 then default_columnOrder t else ret co0) ;;
  h <- get_heap ;;
  headHTML <- lift (ks <-? for_in_values h co ;;
                    ls <-? rmap (fun k => c <-? colDict_get h t k ;;
                                          e <-? escapeHTML (col_label c) ;;
                                          Ok (fill "<th>%s</th>" e)) ks ;;
                    Ok (fill "<thead><tr>%s</tr></thead>" (String.concat "" ls))) ;;
  prepData <- preparedData t orderBy ;;
  h <- get_heap ;;
  rowList <- lift (prs <-? for_in_values h prepData ;;
                   rmap (fun pr => row <-? get h pr "0" ;;
                                   ks <-? for_in_values h co ;;
                                   cells <-? rmap (html_cell h t row) ks ;;
                                   Ok (fill "<tr>%s</tr>" (String.concat "" cells))) prs) ;;
  let bodyHTML := fill "<tbody>%s</tbody>" (String.concat "" rowList) in
  ret (fill "<html><body><table border='1'>%s</table></body></html>" (headHTML +:+ bodyHTML)).

Definition default_handler : string := "google.visualization.Query.setResponse".

(** [this.toJSONResponse(columnOrder, orderBy, reqId, responseHandler)]. *)
Definition toJSONResponse (t : table) (args : list val) : M string :=
  let responseHandler := if length args <? 4 then VStr default_handler else arg args 3 in
  let reqId := if length args <? 3 then VNum 0 else arg args 2 in
  orderBy <- (if (length args <? 2) || is_nullish (arg args 1)
              then l <- alloc (OArr []) ;; ret (VRef l) else ret (arg args 1)) ;;
  let co := if length args <? 1 then VNull else arg args 0 in
  table <- toJSON t [co; orderBy] ;;
  h <- get_heap ;;
  rh <- lift (js_string h responseHandler) ;;
  ri <- lift (js_string h reqId) ;;
  ret (replace_first "%s" table (replace_first "%s" ri (replace_first "%s" rh
         "%s({'version':'0.6', 'reqId':'%s', 'status':'OK', 'table': %s});"))).

Definition tqx_option (dict : list (string * val)) (opt : string) : res (list (string * val)) :=
  match split_on ":" opt with
  | [k; v] => Ok (props_set dict k (VStr v))
  | _ => Exc (Thrown "Invalid tqx provided.")
  end.

Fixpoint rfold {A B} (f : B -> A -> res B) (acc : B) (xs : list A) : res B :=
  match xs with
  | [] => Ok acc
  | x :: xs' => acc' <-? f acc x ;; rfold f acc' xs'
  end.

Definition lookup_prop (dict : list (string * val)) (k : string) : val :=
  match assoc k dict with Some v => v | None => VUndef end.

(** [this.toResponse(columnOrder, orderBy, tqx)]. *)
Definition toResponse (t : table) (args : list val) : M string :=
  let tqx := if length args <? 3 then VStr "" else arg args 2 in
  orderBy <- (if (length args <? 2) || is_nullish (arg args 1)
              then l <- alloc (OArr []) ;; ret (VRef l) else ret (arg args 1)) ;;
  let co := if length args <? 1 then VNull else arg args 0 in
  let tqxDict := [("version", VStr "0.6"); ("out", VStr "json");
                  ("responseHandler", VStr default_handler); ("reqId", VNum 0)] in
  tqxDict <- lift (if truthy tqx then
                     match tqx with
                     | VStr s => rfold tqx_option tqxDict (split_on ";" s)
                     | _ => Exc TypeError   (* no [split] method *)
                     end
                   else Ok tqxDict) ;;
  h <- get_heap ;;
  okv <- lift (loose_eq h (lookup_prop tqxDict "version") (VStr "0.6")) ;;
  if negb okv then throw (Thrown "Version passed by request is not supported.") else
  let out := lookup_prop tqxDict "out" in
  isjson <- lift (loose_eq h out (VStr "json")) ;;
  ishtml <- lift (loose_eq h out (VStr "html")) ;;
  iscsv <- lift (loose_eq h out (VStr "csv")) ;;
  istsv <- lift (loose_eq h out (VStr "tsv-excel")) ;;
  if isjson then toJSONResponse t [co; orderBy; lookup_prop tqxDict "reqId";
                                   lookup_prop tqxDict "responseHandler"]
  else if ishtml then toHTML t [co; orderBy]
  else if iscsv then toCSV t [co; orderBy]
  else if istsv then toTSVExcel t [co; orderBy]
  else throw (Thrown "'out' parameter is not supported").

(** ** Literals

    A JavaScript literal expression ([[1, 'a']], [{a: 'number'}],
    [new Date(...)]) and its evaluation, which allocates its objects. *)
#[local] Set Warnings "-register-all".
Inductive lit :=
| LUndef
| LNull
| LBool (b : bool)
| LNum (n : Z)
| LStr (s : string)
| LArr (xs : list lit)
| LObj (kvs : list (string * lit))
| LDate (d : date).

Fixpoint eval_lit (e : lit) : M val :=
  let fix eval_elems (xs : list lit) (acc : list val) : M (list val) :=
    match xs with
    | [] => ret acc
    | x :: xs' => v <- eval_lit x ;; eval_elems xs' (acc ++ [v])
    end in
  let fix eval_props (kvs : list (string * lit)) (acc : list (string * val))
      : M (list (string * val)) :=
    match kvs with
    | [] => ret acc
    | (k, x) :: kvs' => v <- eval_lit x ;; eval_props kvs' (props_set acc k v)
    end in
  match e with
  | LUndef => ret VUndef
  | LNull => ret VNull
  | LBool b => ret (VBool b)
  | LNum n => ret (VNum n)
  | LStr s => ret (VStr s)
  | LArr xs => vs <- eval_elems xs [] ;; l <- alloc (OArr vs) ;; ret (VRef l)
  | LObj kvs => ps <- eval_props kvs [] ;; l <- alloc (OObj ps) ;; ret (VRef l)
  | LDate d => l <- alloc (ODate d) ;; ret (VRef l)
  end.

Definition run {A} (m : M A) : res A := fst (m []).

(** ** Observing a heap *)

(** [rows[i][0][k]] for every row of a row array. *)
Definition cells_column (rows : val) (k : string) : M (list val) :=
  reading (fun h => prs <-? for_in_values h rows ;;
                    rmap (fun pr => c <-? get h pr "0" ;; get h c k) prs).

(** [rows[i][0]], dereferenced, for every row of a row array. *)
Definition row_cells (rows : val) : M (list obj) :=
  reading (fun h => prs <-? for_in_values h rows ;;
                    rmap (fun pr => c <-? get h pr "0" ;;
                                    match c with
                                    | VRef l => match h !! l with Some o => Ok o | None => Exc TypeError end
                                    | _ => Exc TypeError
                                    end) prs).

(** The elements of an array. *)
Definition contents (v : val) : M (list val) := reading (fun h => Ok (array_contents h v)).

(** Whether a string contains a character. *)
Fixpoint has_char (c : ascii) (s : string) : bool :=
  match s with
  | EmptyString => false
  | String c' s' => Ascii.eqb c c' || has_char c s'
  end.

(** ** Scenarios *)

(** The schema [{a: 'number', b: 'string'}], then [appendData([{a: 1, b: 'z'}])]. *)
Definition dict_append_scenario : M (nat * list obj) :=
  d <- eval_lit (LObj [("a", LStr "number"); ("b", LStr "string")]) ;;
  t <- newDataTable [d] ;;
  p <- eval_lit (LArr [LObj [("a", LNum 1); ("b", LStr "z")]]) ;;
  appendData t p VNull ;;;
  n <- numberOfRows t ;;
  c <- row_cells (VRef (t_data t)) ;;
  ret (n, c).

(** The column [a] of [new DataTable([['a', 'number']], [[1], [2]]).preparedData(orderBy)]. *)
Definition ordering_scenario (orderBy : lit) : M (list val) :=
  d <- eval_lit (LArr [LArr [LStr "a"; LStr "number"]]) ;;
  data <- eval_lit (LArr [LArr [LNum 1]; LArr [LNum 2]]) ;;
  t <- newDataTable [d; data] ;;
  ob <- eval_lit orderBy ;;
  p <- preparedData t ob ;;
  cells_column p "a".

(** [columnTypeParser(description)], observed as [(id, label, type)]. *)
Definition parse_scenario (description : lit) : M (val * val * string) :=
  d <- eval_lit description ;;
  c <- columnTypeParser d ;;
  ret (cd_id c, cd_label c, cd_type c).

(** [new DataTable([['a','number'],['b','string']])], then
    [appendData([[1,'a'],[2,'b']])] and [appendData([[3,'c'],[4]])]: the row
    counts after each append and the cells of every row. *)
Definition sequence_append_scenario : M (nat * nat * list obj) :=
  d <- eval_lit (LArr [LArr [LStr "a"; LStr "number"]; LArr [LStr "b"; LStr "string"]]) ;;
  t <- newDataTable [d] ;;
  p1 <- eval_lit (LArr [LArr [LNum 1; LStr "a"]; LArr [LNum 2; LStr "b"]]) ;;
  appendData t p1 VNull ;;;
  n1 <- numberOfRows t ;;
  p2 <- eval_lit (LArr [LArr [LNum 3; LStr "c"]; LArr [LNum 4]]) ;;
  appendData t p2 VNull ;;;
  n2 <- numberOfRows t ;;
  cs <- row_cells (VRef (t_data t)) ;;
  ret (n1, n2, cs).

(** The same table, then [appendData([[1,'a',true]])]. *)
Definition sequence_overflow_scenario : M unit :=
  d <- eval_lit (LArr [LArr [LStr "a"; LStr "number"]; LArr [LStr "b"; LStr "string"]]) ;;
  t <- newDataTable [d] ;;
  p <- eval_lit (LArr [LArr [LNum 1; LStr "a"; LBool true]]) ;;
  appendData t p VNull.

(** ** Frames

    [keeps n P m]: run on a heap with at least [n] cells, [m] leaves the
    first [n] cells as they were, only appends to the heap, and returns a
    value satisfying [P].  A computation that keeps [length h] on [h] has
    written nothing that existed before it ran. *)
Definition keeps {A} (n : nat) (P : A -> Prop) (m : M A) : Prop :=
  forall h, n <= length h ->
    (length h <= length (snd (m h))) /\ (take n (snd (m h)) = take n h) /\
    (forall a, fst (m h) = Ok a -> P a).

Definition any {A} (_ : A) : Prop := True.

(** The cells a row gets when its elements [vs] are bound to the columns
    [ids] in order, starting from the cells [kvs]. *)
Definition positional_cells (ids : list string) (vs : list val) (kvs : list (string * val))
  : list (string * val) :=
  fold_left (fun acc kv => props_set acc (fst kv) (snd kv)) (combine ids vs) kvs.

(** * Properties *)

Example replace_first_ex : replace_first "%s" "a$&b" "x%sy%s" = "xa%sby%s".
Proof. reflexivity. Qed.
Example replace_all_ex : replace_all "&" "&amp;" "a&b&" = "a&amp;b&amp;".
Proof. reflexivity. Qed.
Example string_to_number_ex : string_to_number " -12 " = Some (-12)%Z.
Proof. reflexivity. Qed.
Example index_of_key_ex : index_of_key "10" = Some 10 /\ index_of_key "01" = None.
Proof. split; reflexivity. Qed.
(** ** String lemmas *)

Lemma str_app_nil (s : string) : s +:+ "" = s.
Proof. induction s as [|c s IH]; [reflexivity | exact (f_equal (String c) IH)]. Qed.

Lemma str_app_assoc (a b c : string) : (a +:+ b) +:+ c = a +:+ (b +:+ c).
Proof. induction a as [|x a IH]; [reflexivity | exact (f_equal (String x) IH)]. Qed.

Lemma substring_0_all (m : nat) (s : string) :
  String.length s <= m -> String.substring 0 m s = s.
Proof.
  revert m; induction s as [|c s IH]; intros m Hm; destruct m; simpl in *;
    try reflexivity; try lia.
  rewrite IH; [reflexivity | lia].
Qed.

Lemma prefix_dquote (c : ascii) (r : string) :
  String.prefix (str1 dquote) (String c r) = Ascii.eqb dquote c.
Proof.
  unfold str1; cbn [String.prefix].
  destruct (ascii_dec dquote c) as [<-|Hne].
  - rewrite Ascii.eqb_refl; destruct r; reflexivity.
  - symmetry; now apply Ascii.eqb_neq.
Qed.

(** Scanning past a prefix free of double quotes. *)
Lemma replace_first_go_skip (rep before pre rest : string) :
  has_char dquote pre = false ->
  replace_first_go (str1 dquote) rep before (pre +:+ rest)
  = replace_first_go (str1 dquote) rep (before +:+ pre) rest.
Proof.
  revert before; induction pre as [|c pre IH]; intros before Hpre.
  - now rewrite str_app_nil.
  - cbn [has_char] in Hpre; apply orb_false_iff in Hpre as [Hc Hpre].
    change (String c pre +:+ rest) with (String c (pre +:+ rest)).
    replace (before +:+ String c pre) with ((before +:+ str1 c) +:+ pre)
      by (rewrite str_app_assoc; reflexivity).
    rewrite <- (IH (before +:+ str1 c) Hpre).
    cbn [replace_first_go]; rewrite prefix_dquote, Hc; reflexivity.
Qed.

(** At a double quote the scan stops and splices the replacement in. *)
Lemma replace_first_go_at_dquote (rep before post : string) :
  replace_first_go (str1 dquote) rep before (String dquote post)
  = before +:+ get_substitution rep (str1 dquote) before post +:+ post.
Proof.
  cbn [replace_first_go]; rewrite prefix_dquote, Ascii.eqb_refl.
  cbn [String.length String.substring str1].
  rewrite substring_0_all by lia; reflexivity.
Qed.

Lemma replace_first_go_no_dquote (rep before s : string) :
  has_char dquote s = false ->
  replace_first_go (str1 dquote) rep before s = before +:+ s.
Proof.
  intros Hs.
  rewrite <- (str_app_nil s) at 1; rewrite replace_first_go_skip by exact Hs.
  reflexivity.
Qed.

Lemma get_substitution_two_dquotes (matched before after : string) :
  get_substitution (str1 dquote +:+ str1 dquote) matched before after
  = str1 dquote +:+ str1 dquote.
Proof. reflexivity. Qed.

(** ** C10 *)

(** C10: [_escapeValueForCSV] wraps a string in double quotes and doubles
    only its first double quote: for a string made of [pre], a double
    quote and [post], where [pre] has no double quote, the result is a
    double quote, [pre], two double quotes, [post] and a closing double
    quote, whatever [post] holds, so later double quotes stay single; a
    string with no double quote is only wrapped. *)
Theorem escapeValueForCSV_doubles_first_quote_only (pre post : string)
    (Hpre : has_char dquote pre = false) :
  escapeValueForCSV (VStr (pre +:+ str1 dquote +:+ post))
  = Ok (str1 dquote +:+ pre +:+ str1 dquote +:+ str1 dquote +:+ post +:+ str1 dquote)
  /\ escapeValueForCSV (VStr pre) = Ok (str1 dquote +:+ pre +:+ str1 dquote).
Proof.
  unfold escapeValueForCSV, replace_first; split.
  - rewrite replace_first_go_skip by exact Hpre.
    change (str1 dquote +:+ post) with (String dquote post).
    rewrite replace_first_go_at_dquote, get_substitution_two_dquotes.
    rewrite !str_app_assoc; reflexivity.
  - rewrite replace_first_go_no_dquote by exact Hpre; reflexivity.
Qed.

(** The input a, quote, b, quote, c: only the first quote is doubled. *)
Lemma escapeValueForCSV_doubles_first_quote_only_witness :
  has_char dquote "a" = false
  /\ escapeValueForCSV (VStr ("a" +:+ str1 dquote +:+ ("b" +:+ str1 dquote +:+ "c")))
     = Ok (str1 dquote +:+ "a" +:+ str1 dquote +:+ str1 dquote
           +:+ ("b" +:+ str1 dquote +:+ "c") +:+ str1 dquote).
Proof.
  split; [reflexivity|].
  exact (proj1 (escapeValueForCSV_doubles_first_quote_only "a" ("b" +:+ str1 dquote +:+ "c")
                  eq_refl)).
Defined.

(** ** C1 *)

(** C1: at the last level of a mapping-container column, [_innerAppendData]
    enumerates the properties of the column descriptor
    [this._columns[colIndex]] ([id], [label], [type], ...) and reads
    [descriptor[key].id], which is undefined for each of them, so no value
    of the fragment is copied: with the schema [{a: 'number', b: 'string'}]
    and the payload [[{a: 1, b: 'z'}]], whose keys [a] and [b] are the
    column ids, the committed row has an empty cell object. *)
Theorem appendData_dict_level_copies_nothing :
  run dict_append_scenario = Ok (1, [OObj []]).
Proof. vm_compute; reflexivity. Qed.

(** ** C2 *)

(** C2: [preparedData] tests [isArray(orderBy && orderBy.length == 2)], a
    boolean, so a single pair [[c, d]] is never recognised as one ordering:
    its two elements are read as two column ids sorted ascending.  On the
    rows [[1], [2]] of column [a], the ordering [['a', 'desc']] keeps the
    ascending order while [[['a', 'desc']]] gives the descending one, and
    [['a', 'foo']] raises no error. *)
Theorem preparedData_single_pair_not_recognised :
  run (ordering_scenario (LArr [LStr "a"; LStr "desc"])) = Ok [VNum 1; VNum 2]
  /\ run (ordering_scenario (LArr [LArr [LStr "a"; LStr "desc"]])) = Ok [VNum 2; VNum 1]
  /\ run (ordering_scenario (LArr [LStr "a"; LStr "foo"])) = Ok [VNum 1; VNum 2].
Proof. split; [|split]; vm_compute; reflexivity. Qed.

(** ** C5 *)

(** C5: [toJSON] omits a cell that is not in the last column when
    [!value] holds, so a present falsy value such as [0] is omitted like an
    absent one: for the rows [[0, 1]] and [[null, 2]] both rows render as
    [{c:[,{v:...}]}]. *)
Theorem toJSON_omits_zero_cell :
  run (d <- eval_lit (LArr [LArr [LStr "a"; LStr "number"]; LArr [LStr "b"; LStr "number"]]) ;;
       data <- eval_lit (LArr [LArr [LNum 0; LNum 1]; LArr [LNull; LNum 2]]) ;;
       t <- newDataTable [d; data] ;;
       toJSON t [])
  = Ok ("{cols:[{id:'a',label:'a',type:'number'},{id:'b',label:'b',type:'number'}],"
        +:+ "rows:[{c:[,{v:1}]},{c:[,{v:2}]}]}").
Proof. vm_compute; reflexivity. Qed.

(** ** C6 *)

(** C6: [columnTypeParser] checks only [description.slice(0, 2)] for
    strings and accepts any [typeof] object as the fourth element: the
    description [['a', 'number', 5]] is parsed with the label [5],
    [['a', 'number', 'A', null]] is accepted, and the empty description
    [[]] yields a column whose id is undefined. *)
Theorem columnTypeParser_accepts_non_string_label :
  run (parse_scenario (LArr [LStr "a"; LStr "number"; LNum 5]))
    = Ok (VStr "a", VNum 5, "number")
  /\ run (parse_scenario (LArr [LStr "a"; LStr "number"; LStr "A"; LNull]))
    = Ok (VStr "a", VStr "A", "number")
  /\ run (parse_scenario (LArr [])) = Ok (VUndef, VUndef, "string").
Proof. split; [|split]; vm_compute; reflexivity. Qed.

(** ** C8 *)

(** C8: for a cell value [[v, f]] or [[v, f, p]] in the accepted format
    ([p] an object, [f] a string or null), [singleValueToJS] with any
    escaping function [esc] encodes [v] by the recursive call
    [singleValueToJS(value[0], type)], whose escaper is the default
    [escapeValue], and applies [esc] only to [f]. *)
Theorem singleValueToJS_pair_value_uses_default_escaper (h : heap) (l : nat) (vs : list val)
    (t : val) (esc : val -> res string)
    (Hl : h !! l = Some (OArr vs))
    (Hlen : length vs = 2 \/ (length vs = 3 /\ isObject (elem vs 2) = true))
    (Hf : isString (elem vs 1) = true \/ is_nullish (elem vs 1) = true) :
  singleValueToJS h (VRef l) t esc =
    (jv <-? singleValueToJS_go h (length h) (elem vs 0) t (escapeValue h) ;;
     if is_nullish (elem vs 1) then Ok (JOPair jv None)
     else fv <-? esc (elem vs 1) ;; Ok (JOPair jv (Some fv))).
Proof.
  unfold singleValueToJS, str_fuel; cbn [singleValueToJS_go].
  unfold isArray at 1; rewrite Hl.
  assert (Hfmt : negb ((length vs =? 2) || (length vs =? 3))
                 || (length vs =? 3) && negb (isObject (elem vs 2)) = false)
    by (destruct Hlen as [-> | [-> ->]]; reflexivity).
  assert (Hs : negb (isString (elem vs 1)) && negb (is_nullish (elem vs 1)) = false)
    by (destruct Hf as [-> | ->]; [reflexivity | apply andb_false_r]).
  rewrite Hfmt, Hs; reflexivity.
Qed.

(** The cell [[a, quote, b; f]] of a string column under the CSV escaper: the
    value is encoded by [escapeValue], the text by [_escapeValueForCSV]. *)
Lemma singleValueToJS_pair_value_uses_default_escaper_witness :
  singleValueToJS [OArr [VStr ("a" +:+ str1 dquote +:+ "b"); VStr "f"]] (VRef 0)
    (VStr "string") escapeValueForCSV
  = (jv <-? singleValueToJS_go [OArr [VStr ("a" +:+ str1 dquote +:+ "b"); VStr "f"]] 1
              (VStr ("a" +:+ str1 dquote +:+ "b")) (VStr "string")
              (escapeValue [OArr [VStr ("a" +:+ str1 dquote +:+ "b"); VStr "f"]]) ;;
     fv <-? escapeValueForCSV (VStr "f") ;; Ok (JOPair jv (Some fv))).
Proof.
  exact (singleValueToJS_pair_value_uses_default_escaper
           [OArr [VStr ("a" +:+ str1 dquote +:+ "b"); VStr "f"]] 0
           [VStr ("a" +:+ str1 dquote +:+ "b"); VStr "f"] (VStr "string") escapeValueForCSV
           eq_refl (or_introl eq_refl) (or_introl eq_refl)).
Defined.

(** ** Frame lemmas *)

Section Frames.
Variable n : nat.

Lemma keeps_ret {A} (P : A -> Prop) (a : A) : P a -> keeps n P (ret a).
Proof. intros HP h Hn; simpl; repeat split; [lia | congruence]. Qed.

Lemma keeps_lift {A} (r : res A) : keeps n any (lift r).
Proof. intros h Hn; simpl; repeat split; try lia; intros; exact I. Qed.

Lemma keeps_reading {A} (f : heap -> res A) : keeps n any (reading f).
Proof. intros h Hn; simpl; repeat split; try lia; intros; exact I. Qed.

Lemma keeps_throw {A} (P : A -> Prop) (e : exn) : keeps n P (throw e).
Proof. intros h Hn; simpl; repeat split; [lia | discriminate]. Qed.

Lemma keeps_alloc (o : obj) : keeps n (fun l => n <= l) (alloc o).
Proof.
  intros h Hn; simpl; rewrite length_app; repeat split; [lia | |].
  - rewrite take_app_le by lia; reflexivity.
  - intros a [= <-]; exact Hn.
Qed.

Lemma keeps_read (l : nat) : keeps n any (read l).
Proof.
  intros h Hn; unfold read; simpl; case_match; simpl; repeat split; try lia; intros; exact I.
Qed.

Lemma keeps_write (l : nat) (o : obj) : n <= l -> keeps n any (write l o).
Proof.
  intros Hl h Hn; unfold write, heap in *; cbn [fst snd]; rewrite length_insert.
  repeat split; try lia; try (intros; exact I); apply take_insert_ge; exact Hl.
Qed.

Lemma keeps_bind {A B} (P : A -> Prop) (Q : B -> Prop) (m : M A) (k : A -> M B) :
  keeps n P m -> (forall a, P a -> keeps n Q (k a)) -> keeps n Q (bind m k).
Proof.
  intros Hm Hk h Hn; unfold bind.
  destruct (Hm h Hn) as (Hlen & Htake & HP).
  destruct (m h) as [[a|e] h1] eqn:E; simpl in *.
  - destruct (Hk a (HP a eq_refl) h1 ltac:(lia)) as (Hlen' & Htake' & HQ).
    repeat split; [lia | congruence | exact HQ].
  - repeat split; [lia | exact Htake | discriminate].
Qed.

Lemma keeps_weaken {A} (P Q : A -> Prop) (m : M A) :
  keeps n P m -> (forall a, P a -> Q a) -> keeps n Q m.
Proof.
  intros Hm HPQ h Hn; destruct (Hm h Hn) as (? & ? & HP); repeat split; auto.
Qed.

Lemma keeps_any {A} (P : A -> Prop) (m : M A) : keeps n P m -> keeps n any m.
Proof. intros Hm; apply (keeps_weaken P); [exact Hm | intros; exact I]. Qed.

Lemma keeps_miter {A} (xs : list A) (body : A -> M unit) :
  (forall x, keeps n any (body x)) -> keeps n any (miter xs body).
Proof.
  intros Hb; induction xs as [|x xs IH]; simpl.
  - apply keeps_ret; exact I.
  - apply (keeps_bind any); [apply Hb | intros; exact IH].
Qed.

Lemma keeps_mfold {A B} (xs : list A) (acc : B) (body : B -> A -> M B) :
  (forall acc x, keeps n any (body acc x)) -> keeps n any (mfold xs acc body).
Proof.
  intros Hb; revert acc; induction xs as [|x xs IH]; intros acc; simpl.
  - apply keeps_ret; exact I.
  - apply (keeps_bind any); [apply Hb | intros; apply IH].
Qed.

Lemma keeps_set_m (target : val) (key : string) (v : val) :
  (forall l, target = VRef l -> n <= l) -> keeps n any (set_m target key v).
Proof.
  intros Ht; unfold set_m; destruct target; try apply keeps_throw;
    try (apply keeps_ret; exact I).
  apply (keeps_bind any); [apply keeps_read | intros; apply keeps_write, Ht; reflexivity].
Qed.

Lemma keeps_push_m (l : nat) (v : val) : n <= l -> keeps n any (push_m l v).
Proof.
  intros Hl; unfold push_m; apply (keeps_bind any); [apply keeps_read|].
  intros o _; destruct o; [apply keeps_write, Hl | apply keeps_throw..].
Qed.

Lemma keeps_bind_any {A B} (Q : B -> Prop) (m : M A) (k : A -> M B) :
  keeps n any m -> (forall a, keeps n Q (k a)) -> keeps n Q (bind m k).
Proof. intros Hm Hk; apply (keeps_bind any); [exact Hm | intros a _; apply Hk]. Qed.

End Frames.

(** One step of a frame proof: the combinators and the primitives. *)
Ltac keeps_step :=
  match goal with
  | |- keeps _ _ (bind _ _) => apply keeps_bind_any; [|intros ?]
  | |- keeps _ _ (ret _) => apply keeps_ret; exact I
  | |- keeps _ _ (lift _) => apply keeps_lift
  | |- keeps _ _ (reading _) => apply keeps_reading
  | |- keeps _ _ get_heap => apply keeps_reading
  | |- keeps _ _ (get_m _ _) => apply keeps_reading
  | |- keeps _ _ (throw _) => apply keeps_throw
  | |- keeps _ _ (alloc _) => apply (keeps_any _ _ _ (keeps_alloc _ _))
  | |- keeps _ _ (read _) => apply keeps_read
  | |- keeps _ _ (if _ then _ else _) => case_match
  | |- keeps _ _ (match _ with _ => _ end) => case_match
  | |- keeps _ _ _ => progress cbv zeta
  end.

Section Frames2.
Variable n : nat.




Lemma keeps_clone (fuel : nat) :
  forall v, keeps n (fun r => exists l, r = VRef l /\ n <= l) (clone fuel v).
Proof.
  induction fuel as [|f IH]; intros v; cbn [clone].
  - apply keeps_throw.
  - apply (keeps_bind n any); [apply keeps_reading|]; intros h _.
    case_match.
    + apply (keeps_bind n (fun l => n <= l)); [apply keeps_alloc|]; intros l Hl.
      apply keeps_ret; eauto.
    + apply (keeps_bind n (fun l => n <= l)); [apply keeps_alloc|]; intros l Hl.
      apply keeps_bind_any; [|intros; apply keeps_ret; eauto].
      apply keeps_miter; intros i.
      apply keeps_bind_any; [apply keeps_reading|]; intros x.
      apply keeps_bind_any.
      * case_match; [apply (keeps_any n _ _ (IH x)) | apply keeps_ret; exact I].
      * intros c; apply keeps_set_m; intros l' [= <-]; exact Hl.
Qed.

Lemma keeps_sort_inplace (cmp : heap -> val -> val -> res Z) (l : nat) :
  n <= l -> keeps n (fun r => r = VRef l) (sort_inplace cmp (VRef l)).
Proof.
  intros Hl; unfold sort_inplace.
  apply keeps_bind_any; [apply keeps_read|]; intros o.
  apply keeps_bind_any; [apply keeps_reading|]; intros h.
  destruct o; try apply keeps_throw.
  apply keeps_bind_any; [apply keeps_lift|]; intros sorted.
  apply keeps_bind_any; [apply keeps_write, Hl|]; intros _.
  apply keeps_ret; reflexivity.
Qed.

(** [preparedData] writes only into cells it allocates, and returns either
    the stored row array or a fresh one. *)
Lemma keeps_preparedData (t : table) (orderBy : val) :
  keeps n (fun r => r = VRef (t_data t) \/ exists l, r = VRef l /\ n <= l)
    (preparedData t orderBy).
Proof.
  unfold preparedData.
  apply keeps_bind_any; [repeat keeps_step|]; intros ob.
  apply keeps_bind_any; [apply keeps_reading|]; intros len.
  case_match; [apply keeps_ret; left; reflexivity|].
  apply keeps_bind_any; [apply keeps_reading|]; intros h.
  apply keeps_bind_any; [apply keeps_lift|]; intros psk.
  apply (keeps_bind n (fun r => exists l, r = VRef l /\ n <= l)).
  - unfold clone_top; apply keeps_bind_any; [apply keeps_reading|]; intros h'.
    apply keeps_clone.
  - intros copy (l & -> & Hl).
    apply (keeps_weaken n (fun r => r = VRef l)); [apply keeps_sort_inplace, Hl|].
    intros r ->; right; eauto.
Qed.

Lemma keeps_columnTypeParser (description : val) : keeps n any (columnTypeParser description).
Proof. unfold columnTypeParser; repeat keeps_step. Qed.

Lemma keeps_toJSON (t : table) (args : list val) : keeps n any (toJSON t args).
Proof.
  unfold toJSON, default_columnOrder; repeat keeps_step.
  all: try (eapply keeps_any; apply keeps_preparedData).
Qed.

End Frames2.

Section Frames3.
Variable n : nat.

Ltac keeps_render :=
  repeat keeps_step; try (eapply keeps_any; apply keeps_preparedData).

Lemma keeps_toJSCode (t : table) (args : list val) : keeps n any (toJSCode t args).
Proof. unfold toJSCode, default_columnOrder, numberOfRows; keeps_render. Qed.

Lemma keeps_toCSV (t : table) (args : list val) : keeps n any (toCSV t args).
Proof. unfold toCSV, default_columnOrder; keeps_render. Qed.

Lemma keeps_toTSVExcel (t : table) (args : list val) : keeps n any (toTSVExcel t args).
Proof. unfold toTSVExcel; repeat keeps_step; apply keeps_toCSV. Qed.

Lemma keeps_toHTML (t : table) (args : list val) : keeps n any (toHTML t args).
Proof. unfold toHTML, default_columnOrder; keeps_render. Qed.

Lemma keeps_toJSONResponse (t : table) (args : list val) : keeps n any (toJSONResponse t args).
Proof. unfold toJSONResponse; repeat keeps_step; apply keeps_toJSON. Qed.

Lemma keeps_toResponse (t : table) (args : list val) : keeps n any (toResponse t args).
Proof.
  unfold toResponse; repeat keeps_step;
    first [apply keeps_toJSONResponse | apply keeps_toHTML | apply keeps_toCSV
          | apply keeps_toTSVExcel].
Qed.

End Frames3.

(** A computation that keeps [length h] on [h] only appends to [h]. *)
Lemma keeps_extends {A} (P : A -> Prop) (m : M A) (h : heap) :
  keeps (length h) P m -> exists ext, snd (m h) = h ++ ext.
Proof.
  intros Hm; destruct (Hm h (le_n _)) as (Hlen & Htake & _).
  exists (drop (length h) (snd (m h))).
  rewrite <- (take_drop (length h) (snd (m h))) at 1.
  rewrite Htake, take_ge by lia; reflexivity.
Qed.

(** ** C7 *)

(** C7: the renderers [toJSON], [toJSCode], [toCSV], [toTSVExcel],
    [toHTML], [toJSONResponse] and [toResponse], whatever their arguments
    and outcome, leave every object that existed before the call as it
    was: the heap after the call is the heap before it with new objects
    appended, so the stored row array [t_data t], its rows and their cells
    are unchanged (the column list [t_columns t] is an immutable field of
    the table).  [preparedData] likewise only appends, and returns either
    the stored row array, unsorted, or a fresh array: the sort works on a
    copy. *)
Theorem renderers_leave_table_unchanged (t : table) (args : list val) (h : heap) :
  Forall (fun render : table -> list val -> M string =>
            exists ext, snd (render t args h) = h ++ ext)
    [toJSON; toJSCode; toCSV; toTSVExcel; toHTML; toJSONResponse; toResponse]
  /\ forall orderBy, exists ext,
       snd (preparedData t orderBy h) = h ++ ext
       /\ forall r, fst (preparedData t orderBy h) = Ok r ->
            r = VRef (t_data t) \/ exists l, r = VRef l /\ length h <= l.
Proof.
  split.
  - repeat constructor; eapply keeps_extends;
      first [ apply keeps_toJSON | apply keeps_toJSCode | apply keeps_toCSV
            | apply keeps_toTSVExcel | apply keeps_toHTML | apply keeps_toJSONResponse
            | apply keeps_toResponse ].
  - intros orderBy.
    destruct (keeps_extends _ _ h (keeps_preparedData (length h) t orderBy)) as [ext Hext].
    exists ext; split; [exact Hext|].
    apply (keeps_preparedData (length h) t orderBy h (le_n _)).
Qed.

(** ** C9 *)

Lemma unshift_run (h : heap) (l : nat) (vs : list val) (x : val) :
  h !! l = Some (OArr vs) ->
  unshift (VRef l) x h = (Ok tt, <[l := OArr (x :: vs)]> h).
Proof. intros Hl; unfold unshift, bind, read, write; cbn beta; rewrite Hl; reflexivity. Qed.

(** C9: in the innermost-level branch of [tableDescriptionParser], the
    loop body for a key [i] whose value is an array prepends [i] to that
    array in place, whatever the parse of the column then gives; so
    [new DataTable({a: ['number'], b: 'string'})] leaves the caller's
    description with [a: ['a', 'number']]. *)
Theorem innermost_column_unshifts_in_place (td : val) (depth : nat) (i : string) (h : heap)
    (l : nat) (vs : list val)
    (Hget : get h td i = Ok (VRef l)) (Hl : h !! l = Some (OArr vs)) :
  snd (innermost_column td depth i h) !! l = Some (OArr (VStr i :: vs))
  /\ run (d <- eval_lit (LObj [("a", LArr [LStr "number"]); ("b", LStr "string")]) ;;
          newDataTable [d] ;;;
          x <- get_m d "a" ;;
          contents x) = Ok [VStr "a"; VStr "number"].
Proof.
  split; [|vm_compute; reflexivity].
  unfold innermost_column, get_m, reading, bind at 1; rewrite Hget.
  unfold bind at 1.
  assert (Ha : isArray h (VRef l) = true) by (unfold isArray; rewrite Hl; reflexivity).
  rewrite Ha.
  unfold bind at 1 2; rewrite (unshift_run h l vs (VStr i) Hl).
  set (h1 := <[l := OArr (VStr i :: vs)]> h).
  destruct (keeps_extends any _ h1 (keeps_columnTypeParser (length h1) (VRef l))) as [ext Hext].
  destruct (columnTypeParser (VRef l) h1) as [[c|e] h2]; simpl in Hext |- *; subst h2;
    apply lookup_app_l_Some; unfold h1; apply list_lookup_insert_eq;
    apply lookup_lt_is_Some_1; exists (OArr vs); exact Hl.
Qed.

(** The description [{a: ['number']}] at location 0, its array at 1. *)
Lemma innermost_column_unshifts_in_place_witness :
  snd (innermost_column (VRef 0) 0 "a" [OObj [("a", VRef 1)]; OArr [VStr "number"]]) !! 1
  = Some (OArr [VStr "a"; VStr "number"]).
Proof.
  exact (proj1 (innermost_column_unshifts_in_place (VRef 0) 0 "a"
                  [OObj [("a", VRef 1)]; OArr [VStr "number"]] 1 [VStr "number"]
                  eq_refl eq_refl)).
Defined.

(** ** Column parsing lemmas *)

Ltac keeps_post_step :=
  match goal with
  | |- keeps _ _ (bind (lift _) _) => apply keeps_bind_any; [apply keeps_lift|intros ?]
  | |- keeps _ _ (bind (alloc _) _) =>
      apply keeps_bind_any; [apply (keeps_any _ _ _ (keeps_alloc _ _))|intros ?]
  | |- keeps ?n ?P (bind _ _) => apply (keeps_bind n P); [|intros ? ?]
  | |- keeps _ _ (ret _) => apply keeps_ret; first [reflexivity | assumption]
  | |- keeps _ _ (throw _) => apply keeps_throw
  | |- keeps _ _ (if ?b then _ else _) => destruct b
  | |- keeps _ _ _ => progress cbv zeta
  end.

Lemma columnTypeParser_id (d : val) (h : heap) (c : coldesc) :
  isArray h d = true -> fst (columnTypeParser d h) = Ok c ->
  cd_id c = elem (array_contents h d) 0.
Proof.
  intros Ha; unfold columnTypeParser.
  unfold bind at 1, reading; cbn beta iota.
  assert (Ht : type h d = "array") by (unfold type; rewrite Ha; destruct d; try discriminate; reflexivity).
  rewrite Ht; cbn zeta.
  match goal with |- fst (?m h) = Ok c -> _ =>
    assert (K : keeps 0 (fun c => cd_id c = elem (array_contents h d) 0) m) end.
  { repeat keeps_post_step. }
  intros Hc; exact (proj2 (proj2 (K h (Nat.le_0_l _))) c Hc).
Qed.

Lemma innermost_column_ok (td : val) (depth : nat) (i : string) (h : heap) (c : column) :
  fst (innermost_column td depth i h) = Ok c ->
  col_id c = VStr i /\ col_depth c = depth /\ col_container c = "dict".
Proof.
  unfold innermost_column, get_m, reading, bind at 1; cbn beta.
  destruct (get h td i) as [x|e]; [|discriminate].
  unfold bind at 1; cbn beta iota.
  destruct (isArray h x) eqn:Ha.
  - destruct x as [| | | | |l]; try discriminate.
    unfold isArray in Ha.
    destruct (h !! l) as [[vs| |]|] eqn:Hl; try discriminate.
    unfold bind at 1 2; rewrite (unshift_run h l vs (VStr i) Hl).
    set (h1 := <[l := OArr (VStr i :: vs)]> h).
    assert (Hl1 : h1 !! l = Some (OArr (VStr i :: vs))).
    { unfold h1; apply list_lookup_insert_eq, lookup_lt_is_Some_1; exists (OArr vs); exact Hl. }
    pose proof (columnTypeParser_id (VRef l) h1) as Hid.
    destruct (columnTypeParser (VRef l) h1) as [[cd|e] h2]; simpl; [|discriminate].
    intros [= <-]; simpl; repeat split.
    rewrite (Hid cd); [unfold array_contents; rewrite Hl1; reflexivity | |reflexivity].
    unfold isArray; rewrite Hl1; reflexivity.
  - unfold bind at 1 2, alloc; cbn beta iota.
    set (h1 := h ++ [OArr [VStr i; x]]).
    assert (Hl1 : (h1 : heap) !! length h = Some (OArr [VStr i; x])).
    { unfold h1; apply list_lookup_middle; reflexivity. }
    pose proof (columnTypeParser_id (VRef (length h)) h1) as Hid.
    destruct (columnTypeParser (VRef (length h)) h1) as [[cd|e] h2]; simpl; [|discriminate].
    intros [= <-]; simpl; repeat split.
    rewrite (Hid cd); [unfold array_contents; rewrite Hl1; reflexivity | |reflexivity].
    unfold isArray; rewrite Hl1; reflexivity.
Qed.

Lemma tableDescriptionParser_mapping_unfold (fuel depth : nat) (h : heap) (l : nat)
    (k0 : string) (v0 : val) (rest : list (string * val)) :
  h !! l = Some (OObj ((k0, v0) :: rest)) ->
  tableDescriptionParser_go (S fuel) (VRef l) depth h =
  (if negb (length (map fst rest) =? 0)
      || isArray h v0 && isString (elem (array_contents h v0) 0)
         && (length (array_contents h v0) <? 4)
   then mfold (k0 :: map fst rest) [] (fun columns i =>
          parsedCol <- innermost_column (VRef l) depth i ;; ret (columns ++ [parsedCol]))
   else parsedCol <- columnTypeParser (VStr k0) ;;
        result <- tableDescriptionParser_go fuel v0 (S depth) ;;
        ret (place parsedCol depth "dict" :: result)) h.
Proof.
  intros Hl; cbn [tableDescriptionParser_go].
  unfold bind at 1, reading; cbn beta iota.
  assert (Hcd : isColumnDesc h (VRef l) = false)
    by (unfold isColumnDesc, isArray; simpl; rewrite Hl; reflexivity).
  assert (Ha : isArray h (VRef l) = false) by (unfold isArray; rewrite Hl; reflexivity).
  assert (Ht : type h (VRef l) = "object")
    by (unfold type, isArray, isDate; simpl; rewrite Hl; reflexivity).
  assert (Hk : keys h (VRef l) = k0 :: map fst rest) by (unfold keys; rewrite Hl; reflexivity).
  assert (Hg : get h (VRef l) k0 = Ok v0)
    by (unfold get; rewrite Hl; simpl; rewrite String.eqb_refl; reflexivity).
  assert (Ho : isObject (VRef l) = true) by reflexivity.
  rewrite Hcd, Ha, Ho, Ht, Hk, String.eqb_refl.
  cbn beta iota delta [negb andb orb length Nat.eqb].
  unfold bind at 1, get_m, reading; rewrite Hg.
  unfold bind at 1; cbn beta iota.
  reflexivity.
Qed.

Lemma innermost_loop_ok (td : val) (depth : nat) (ks : list string) :
  forall (acc : list column) (h : heap) (cols : list column),
  fst (mfold ks acc (fun columns i =>
         parsedCol <- innermost_column td depth i ;; ret (columns ++ [parsedCol])) h) = Ok cols ->
  exists cs, cols = acc ++ cs /\ map col_id cs = map VStr ks
             /\ Forall (fun c => col_depth c = depth /\ col_container c = "dict") cs.
Proof.
  induction ks as [|i ks IH]; intros acc h cols; simpl.
  - intros [= <-]; exists []; rewrite app_nil_r; repeat constructor.
  - unfold bind at 1 2.
    pose proof (innermost_column_ok td depth i h) as Hi.
    destruct (innermost_column td depth i h) as [[c|e] h1]; simpl in *; [|discriminate].
    intros Hc; destruct (IH _ _ _ Hc) as (cs & -> & Hids & Hall).
    destruct (Hi c eq_refl) as (Hid & Hd & Hcont).
    exists (c :: cs); rewrite <- app_assoc; simpl; repeat split.
    + rewrite Hid, Hids; reflexivity.
    + constructor; [split; assumption | exact Hall].
Qed.

(** ** C3 *)

(** C3: for a keyed-mapping description (a plain object whose first entry
    is [k0: v0], followed by [rest]): when it has more than one key, or
    [v0] is an array of fewer than 4 elements whose first is a string, the
    parser runs the innermost-level loop over all keys, and a successful
    run gives one column per key, in key order, with the key as its id,
    the current depth and the mapping container ["dict"]; otherwise it
    parses [k0] as one outer mapping column at the current depth and
    recurses into [v0] at [depth + 1], prepending that column to the
    result. *)
Theorem tableDescriptionParser_mapping_levels (fuel depth : nat) (h : heap) (l : nat)
    (k0 : string) (v0 : val) (rest : list (string * val))
    (Hl : h !! l = Some (OObj ((k0, v0) :: rest))) :
  ((1 < length (k0 :: map fst rest)
    \/ (isArray h v0 = true /\ isString (elem (array_contents h v0) 0) = true
        /\ length (array_contents h v0) < 4)) ->
     tableDescriptionParser_go (S fuel) (VRef l) depth h
     = mfold (k0 :: map fst rest) [] (fun columns i =>
         parsedCol <- innermost_column (VRef l) depth i ;; ret (columns ++ [parsedCol])) h
     /\ forall cols, fst (tableDescriptionParser_go (S fuel) (VRef l) depth h) = Ok cols ->
          map col_id cols = map VStr (k0 :: map fst rest)
          /\ Forall (fun c => col_depth c = depth /\ col_container c = "dict") cols)
  /\ (~ (1 < length (k0 :: map fst rest)
         \/ (isArray h v0 = true /\ isString (elem (array_contents h v0) 0) = true
             /\ length (array_contents h v0) < 4)) ->
     tableDescriptionParser_go (S fuel) (VRef l) depth h
     = (parsedCol <- columnTypeParser (VStr k0) ;;
        result <- tableDescriptionParser_go fuel v0 (S depth) ;;
        ret (place parsedCol depth "dict" :: result)) h).
Proof.
  rewrite (tableDescriptionParser_mapping_unfold fuel depth h l k0 v0 rest Hl).
  assert (Hb : (negb (length (map fst rest) =? 0)
                || isArray h v0 && isString (elem (array_contents h v0) 0)
                   && (length (array_contents h v0) <? 4)) = true
               <-> (1 < length (k0 :: map fst rest)
                    \/ (isArray h v0 = true /\ isString (elem (array_contents h v0) 0) = true
                        /\ length (array_contents h v0) < 4))).
  { simpl length; rewrite orb_true_iff, !andb_true_iff, negb_true_iff, Nat.eqb_neq,
      Nat.ltb_lt; split; (intros [H|H]; [left; lia | right; tauto]). }
  destruct (negb (length (map fst rest) =? 0)
            || isArray h v0 && isString (elem (array_contents h v0) 0)
               && (length (array_contents h v0) <? 4)) eqn:E.
  - split; [|intros Hn; exfalso; apply Hn, Hb; reflexivity].
    intros _; split; [reflexivity|].
    intros cols Hc; destruct (innermost_loop_ok _ _ _ _ _ _ Hc) as (cs & -> & Hids & Hall).
    split; [exact Hids | exact Hall].
  - split; [|intros _; reflexivity].
    intros Hp; apply Hb in Hp; discriminate.
Qed.

(** The description [{a: 'number', b: 'string'}] at location 0, which has
    two keys. *)
Lemma tableDescriptionParser_mapping_levels_witness :
  tableDescriptionParser_go 1 (VRef 0) 0 [OObj [("a", VStr "number"); ("b", VStr "string")]]
  = mfold ["a"; "b"] [] (fun columns i =>
      parsedCol <- innermost_column (VRef 0) 0 i ;; ret (columns ++ [parsedCol]))
      [OObj [("a", VStr "number"); ("b", VStr "string")]].
Proof.
  exact (proj1 (proj1 (tableDescriptionParser_mapping_levels 0 0
                         [OObj [("a", VStr "number"); ("b", VStr "string")]] 0
                         "a" (VStr "number") [("b", VStr "string")] eq_refl)
                  (or_introl (le_n 2)))).
Defined.

(** ** Decimal keys *)

Lemma pos_lt_pow10_size (p : positive) : (Zpos p < 10 ^ Z.of_nat (Pos.size_nat p))%Z.
Proof.
  induction p as [p IH|p IH|]; cbn [Pos.size_nat];
    try (rewrite Nat2Z.inj_succ, Z.pow_succ_r by lia; rewrite Pos2Z.inj_xI || rewrite Pos2Z.inj_xO; lia).
Qed.

Lemma digit_char (m : nat) : m < 10 ->
  is_digit (ascii_of_nat (48 + m)) = true
  /\ nat_of_ascii (ascii_of_nat (48 + m)) = 48 + m.
Proof.
  intros Hm; rewrite nat_ascii_embedding by lia.
  unfold is_digit; rewrite nat_ascii_embedding by lia; split; [|reflexivity].
  apply andb_true_iff; split; apply Nat.leb_le; lia.
Qed.

Lemma zdigits_value (f : nat) :
  forall (n : Z) (acc : string) (a : Z), (0 <= n < 10 ^ Z.of_nat f)%Z ->
  exists e, (0 < e)%Z /\ digits_value (zdigits f n acc) a = digits_value acc (a * e + n)%Z.
Proof.
  induction f as [|f IH]; intros n acc a Hn; cbn [zdigits].
  - exists 1%Z; split; [lia|]; replace n with 0%Z by (simpl in Hn; lia).
    f_equal; lia.
  - assert (Hm : Z.to_nat (n mod 10) < 10) by (pose proof (Z.mod_pos_bound n 10); lia).
    destruct (digit_char _ Hm) as [Hd Hv].
    assert (Hdv : forall b, digits_value (String (ascii_of_nat (48 + Z.to_nat (n mod 10))) acc) b
                            = digits_value acc (10 * b + n mod 10)%Z).
    { intros b; cbn [digits_value]; rewrite Hd, Hv.
      replace (48 + Z.to_nat (n mod 10) - 48) with (Z.to_nat (n mod 10)) by lia.
      rewrite Z2Nat.id by (pose proof (Z.mod_pos_bound n 10); lia); reflexivity. }
    destruct (n <? 10)%Z eqn:Hlt.
    + apply Z.ltb_lt in Hlt; exists 10%Z; split; [lia|].
      rewrite Hdv, Z.mod_small by lia; f_equal; lia.
    + apply Z.ltb_ge in Hlt.
      rewrite Nat2Z.inj_succ, Z.pow_succ_r in Hn by lia.
      destruct (IH (n / 10)%Z (String (ascii_of_nat (48 + Z.to_nat (n mod 10))) acc) a)
        as (e & He & Heq).
      { split; [apply Z.div_pos; lia | apply Z.div_lt_upper_bound; lia]. }
      exists (10 * e)%Z; split; [lia|].
      rewrite Heq, Hdv; f_equal.
      pose proof (Z.div_mod n 10); lia.
Qed.

Lemma zdigits_head (f : nat) :
  forall (n : Z) (acc : string), (0 < n < 10 ^ Z.of_nat f)%Z ->
  exists c s, zdigits f n acc = String c s /\ nat_of_ascii c <> 48.
Proof.
  induction f as [|f IH]; intros n acc Hn; cbn [zdigits].
  - simpl in Hn; lia.
  - destruct (n <? 10)%Z eqn:Hlt.
    + apply Z.ltb_lt in Hlt.
      assert (Hm : Z.to_nat (n mod 10) < 10) by (pose proof (Z.mod_pos_bound n 10); lia).
      destruct (digit_char _ Hm) as [_ Hv].
      eexists _, _; split; [reflexivity|]; rewrite Hv, Z.mod_small by lia; lia.
    + apply Z.ltb_ge in Hlt.
      rewrite Nat2Z.inj_succ, Z.pow_succ_r in Hn by lia.
      apply IH; split; [apply Z.div_str_pos; lia | apply Z.div_lt_upper_bound; lia].
Qed.

(** The for-in key of an array index reads back as that index. *)
Lemma index_of_key_nat_to_string (k : nat) : index_of_key (nat_to_string k) = Some k.
Proof.
  destruct k as [|k]; [reflexivity|].
  unfold nat_to_string, Z_to_string; rewrite Nat2Z.inj_succ.
  destruct (Z.succ (Z.of_nat k)) as [|p|p] eqn:Ep; try lia.
  pose proof (pos_lt_pow10_size p) as Hp.
  destruct (zdigits_head (Pos.size_nat p) (Zpos p) "") as (c & s & Hs & Hc); [lia|].
  destruct (zdigits_value (Pos.size_nat p) (Zpos p) "" 0) as (e & _ & Hv); [lia|].
  rewrite Hs in Hv |- *; unfold index_of_key.
  replace (nat_of_ascii c =? 48) with false by (symmetry; apply Nat.eqb_neq; exact Hc).
  simpl andb; cbv iota; rewrite Hv; simpl; f_equal; lia.
Qed.

Lemma nat_to_string_not_length (j : nat) : String.eqb (nat_to_string j) "length" = false.
Proof.
  apply String.eqb_neq; intros E.
  pose proof (index_of_key_nat_to_string j) as H; rewrite E in H; discriminate.
Qed.

Lemma lookup_nth_error {A} (l : list A) (j : nat) : l !! j = nth_error l j.
Proof. revert j; induction l as [|x l IH]; intros [|j]; simpl; auto. Qed.

Lemma js_string_str (h : heap) (s : string) : js_string h (VStr s) = Ok s.
Proof. reflexivity. Qed.

Lemma iter_cell_step (t : table) (ids : list string) (h : heap) (p c r j : nat) (cp : val)
  (kvs : list (string * val)) (vs : list val) (s : string) (v : val) :
  map col_id (t_columns t) = map VStr ids ->
  h !! p = Some (OArr [VRef c; cp]) -> h !! c = Some (OObj kvs) -> h !! r = Some (OArr vs) ->
  ids !! j = Some s -> vs !! j = Some v ->
  iter_cell t (VRef p) (VRef r) j (nat_to_string j) h
  = (Ok (S j), <[c := OObj (props_set kvs s v)]> h).
Proof.
  intros Hids Hp Hc Hr Hs Hv.
  assert (Hlen : length (t_columns t) = length ids)
    by (rewrite <- (length_map col_id), Hids, length_map; reflexivity).
  assert (Hj : j < length ids) by (apply lookup_lt_Some in Hs; exact Hs).
  assert (Hcol : match nth_error (t_columns t) j with Some c0 => col_id c0 | None => VUndef end = VStr s).
  { pose proof (f_equal (fun l => nth_error l j) Hids) as E; cbn beta in E.
    rewrite !nth_error_map in E. rewrite lookup_nth_error in Hs. rewrite Hs in E.
    destruct (nth_error (t_columns t) j); simpl in E; congruence. }
  unfold iter_cell. rewrite Hcol.
  replace (length (t_columns t) <=? j) with false by (symmetry; apply Nat.leb_gt; lia).
  unfold bind, get_m, reading, to_key, set_m, read, write, ret; cbn beta iota.
  assert (G0 : get h (VRef p) "0" = Ok (VRef c)) by (unfold get; rewrite Hp; reflexivity).
  assert (G1 : get h (VRef r) (nat_to_string j) = Ok v).
  { unfold get; rewrite Hr; unfold array_get.
    rewrite nat_to_string_not_length, index_of_key_nat_to_string, Hv; reflexivity. }
  rewrite G0; cbn beta iota. unfold reading; rewrite js_string_str.
  rewrite G1; unfold bind; cbn beta iota. rewrite Hc. reflexivity.
Qed.

Lemma iter_cell_overflow (t : table) (ids : list string) (h : heap) (pv dv : val) (j : nat) (i : string) :
  map col_id (t_columns t) = map VStr ids -> length ids <= j ->
  iter_cell t pv dv j i h = (Exc (Thrown "Too many elements given in data"), h).
Proof.
  intros Hids Hj.
  assert (Hlen : length (t_columns t) = length ids)
    by (rewrite <- (length_map col_id), Hids, length_map; reflexivity).
  unfold iter_cell. replace (length (t_columns t) <=? j) with true by (symmetry; apply Nat.leb_le; lia).
  reflexivity.
Qed.

Section IterLoop.
Variables (t : table) (ids : list string) (p c r : nat) (cp : val) (vs : list val).
Hypothesis Hids : map col_id (t_columns t) = map VStr ids.

Lemma iter_loop (m : nat) :
  forall (j : nat) (kvs : list (string * val)) (h : heap),
  j + m = length vs -> j <= length ids ->
  h !! p = Some (OArr [VRef c; cp]) -> h !! c = Some (OObj kvs) -> h !! r = Some (OArr vs) ->
  (j + m <= length ids ->
   mfold (map nat_to_string (seq j m)) j (iter_cell t (VRef p) (VRef r)) h
   = (Ok (j + m), <[c := OObj (positional_cells (drop j ids) (drop j vs) kvs)]> h))
  /\ (length ids < j + m ->
   fst (mfold (map nat_to_string (seq j m)) j (iter_cell t (VRef p) (VRef r)) h)
   = Exc (Thrown "Too many elements given in data")).
Proof.
  induction m as [|m IH]; intros j kvs h Hjm Hjl Hp Hc Hr; unfold heap in *.
  - split; [intros _ | lia]. simpl. rewrite Nat.add_0_r.
    rewrite (drop_ge vs) by lia. unfold positional_cells. rewrite combine_nil. simpl.
    rewrite list_insert_id by exact Hc. reflexivity.
  - assert (Hpc : p <> c) by (intros ->; congruence).
    assert (Hrc : r <> c) by (intros ->; congruence).
    destruct (Nat.lt_ge_cases j (length ids)) as [Hj | Hj].
    + destruct (lookup_lt_is_Some_2 ids j Hj) as [s Hs].
      destruct (lookup_lt_is_Some_2 vs j ltac:(lia)) as [v Hv].
      set (h1 := <[c := OObj (props_set kvs s v)]> h).
      assert (Hp1 : h1 !! p = Some (OArr [VRef c; cp]))
        by (unfold h1; rewrite list_lookup_insert_ne by congruence; exact Hp).
      assert (Hc1 : h1 !! c = Some (OObj (props_set kvs s v))).
      { unfold h1; apply list_lookup_insert_eq. apply lookup_lt_Some in Hc; exact Hc. }
      assert (Hr1 : h1 !! r = Some (OArr vs))
        by (unfold h1; rewrite list_lookup_insert_ne by congruence; exact Hr).
      destruct (IH (S j) (props_set kvs s v) h1 ltac:(lia) ltac:(lia) Hp1 Hc1 Hr1) as [IH1 IH2].
      cbn [seq map mfold]. unfold bind.
      rewrite (iter_cell_step t ids h p c r j cp kvs vs s v Hids Hp Hc Hr Hs Hv).
      fold h1. split.
      * intros Hle. etransitivity; [exact (IH1 ltac:(lia))|].
        rewrite (drop_S ids s j Hs), (drop_S vs v j Hv).
        f_equal; [f_equal; lia|]. unfold h1. apply list_insert_insert_eq.
      * intros Hlt. apply IH2; lia.
    + split; [lia | intros _].
      cbn [seq map mfold]. unfold bind.
      rewrite (iter_cell_overflow t ids h (VRef p) (VRef r) j _ Hids Hj). reflexivity.
Qed.
End IterLoop.

Lemma push_m_run (h : heap) (d : nat) (rows : list val) (x : val) :
  h !! d = Some (OArr rows) ->
  push_m d x h = (Ok tt, <[d := OArr (rows ++ [x])]> h).
Proof. intros Hd; unfold push_m, bind, read, write; cbn beta; rewrite Hd; reflexivity. Qed.

Lemma innerAppendData_iter_row (t : table) (fuel : nat) (ids : list string) (h : heap)
  (p c r : nat) (cp : val) (kvs : list (string * val)) (vs rows : list val) (col : column)
  (cols' : list column) :
  map col_id (t_columns t) = map VStr ids ->
  t_columns t = col :: cols' -> col_container col = "iter" ->
  h !! p = Some (OArr [VRef c; cp]) -> h !! c = Some (OObj kvs) ->
  h !! r = Some (OArr vs) -> h !! t_data t = Some (OArr rows) ->
  (length vs <= length ids ->
   innerAppendData t (S fuel) (VRef p) (VRef r) 0 h
   = (Ok tt, <[t_data t := OArr (rows ++ [VRef p])]> (<[c := OObj (positional_cells ids vs kvs)]> h)))
  /\ (length ids < length vs ->
   fst (innerAppendData t (S fuel) (VRef p) (VRef r) 0 h)
   = Exc (Thrown "Too many elements given in data")).
Proof.
  intros Hids Hcols Hiter Hp Hc Hr Hd.
  destruct (iter_loop t ids p c r cp vs Hids (length vs) 0 kvs h ltac:(lia) ltac:(lia) Hp Hc Hr)
    as [L1 L2].
  assert (Hdc : t_data t <> c) by (intros E; rewrite E in Hd; congruence).
  simpl innerAppendData. rewrite Hcols. simpl nth_error. rewrite Hiter. cbn iota beta.
  unfold get_heap, reading, bind. cbn beta iota.
  change (String.eqb "iter" "scalar") with false; change (String.eqb "iter" "iter") with true.
  cbn beta iota. rewrite Hr. cbn [negb]; cbn beta iota.
  split.
  - intros Hle. rewrite (L1 Hle). cbn beta iota.
    rewrite (push_m_run _ _ rows). 2: { unfold heap in *; rewrite list_lookup_insert_ne by congruence; exact Hd. }
    reflexivity.
  - intros Hlt. specialize (L2 Hlt).
    destruct (mfold _ _ _ h) as [[a|e] h']; simpl in L2 |- *; congruence.
Qed.

Lemma new_row_run (h : heap) (cp : val) {B} (k : val -> M B) :
  (prev <- new_row cp ;; k prev) h
  = k (VRef (S (length h))) (h ++ [OObj []; OArr [VRef (length h); cp]]).
Proof.
  unfold new_row, bind, alloc, ret; cbn beta iota.
  rewrite length_app, Nat.add_1_r, <- app_assoc. reflexivity.
Qed.

(** C4: for a table of depth-0 columns whose first column is a sequence
    ([iter]) column, one element [vs] of the payload is committed as one
    new row whose cells bind the column ids to the elements positionally;
    a shorter element leaves the trailing columns out, a longer one throws
    [Too many elements given in data]; and on the schema
    [[['a','number'],['b','string']]], appending [[[1,'a'],[2,'b']]] then
    [[[3,'c'],[4]]] gives 2 then 4 rows, the fourth without a [b] cell. *)
Theorem appendData_sequence_binds_positionally (t : table) (fuel : nat) (ids : list string)
  (h : heap) (r : nat) (cp : val) (vs rows : list val) (col : column) (cols' : list column)
  (Hids : map col_id (t_columns t) = map VStr ids)
  (Hcols : t_columns t = col :: cols') (Hiter : col_container col = "iter")
  (Hr : h !! r = Some (OArr vs)) (Hd : h !! t_data t = Some (OArr rows)) :
  (length vs <= length ids ->
   (prev <- new_row cp ;; innerAppendData t (S fuel) prev (VRef r) 0) h
   = (Ok tt, <[t_data t := OArr (rows ++ [VRef (S (length h))])]>
               (<[length h := OObj (positional_cells ids vs [])]>
                  (h ++ [OObj []; OArr [VRef (length h); cp]]))))
  /\ (length ids < length vs ->
      fst ((prev <- new_row cp ;; innerAppendData t (S fuel) prev (VRef r) 0) h)
      = Exc (Thrown "Too many elements given in data"))
  /\ run sequence_append_scenario
     = Ok (2, 4, [OObj [("a", VNum 1); ("b", VStr "a")]; OObj [("a", VNum 2); ("b", VStr "b")];
                  OObj [("a", VNum 3); ("b", VStr "c")]; OObj [("a", VNum 4)]])
  /\ run sequence_overflow_scenario = Exc (Thrown "Too many elements given in data").
Proof.
  rewrite !new_row_run.
  set (h2 := h ++ [OObj []; OArr [VRef (length h); cp]]).
  assert (Hlt : forall l o, h !! l = Some o -> h2 !! l = Some o)
    by (intros l o Hl; unfold h2; apply lookup_app_l_Some; exact Hl).
  assert (Hp2 : h2 !! S (length h) = Some (OArr [VRef (length h); cp])).
  { unfold h2. rewrite lookup_app_r by lia. replace (S (length h) - length h) with 1 by lia.
    reflexivity. }
  assert (Hc2 : h2 !! length h = Some (OObj [])).
  { unfold h2. rewrite lookup_app_r by lia. rewrite Nat.sub_diag. reflexivity. }
  destruct (innerAppendData_iter_row t fuel ids h2 (S (length h)) (length h) r cp [] vs rows
              col cols' Hids Hcols Hiter Hp2 Hc2 (Hlt _ _ Hr) (Hlt _ _ Hd)) as [R1 R2].
  split; [exact R1|]. split; [exact R2|].
  split; vm_compute; reflexivity.
Qed.

Lemma appendData_sequence_binds_positionally_witness :
  let tw := mkTable [mkColumn (VStr "a") (VStr "a") "number" VUndef 0 "iter";
                     mkColumn (VStr "b") (VStr "b") "string" VUndef 0 "iter"] 1 VNull in
  let hw := [OArr [VNum 5; VStr "x"]; OArr []] in
  map col_id (t_columns tw) = map VStr ["a"; "b"]
  /\ hw !! 0 = Some (OArr [VNum 5; VStr "x"]) /\ hw !! t_data tw = Some (OArr [])
  /\ (prev <- new_row VNull ;; innerAppendData tw 1 prev (VRef 0) 0) hw
     = (Ok tt, [OArr [VNum 5; VStr "x"]; OArr [VRef 3];
                OObj [("a", VNum 5); ("b", VStr "x")]; OArr [VRef 2; VNull]]).
Proof.
  intros tw hw. split; [reflexivity|]. split; [reflexivity|]. split; [reflexivity|].
  rewrite (proj1 (appendData_sequence_binds_positionally tw 0 ["a"; "b"] hw 0 VNull
                    [VNum 5; VStr "x"] [] (mkColumn (VStr "a") (VStr "a") "number" VUndef 0 "iter")
                    [mkColumn (VStr "b") (VStr "b") "string" VUndef 0 "iter"]
                    eq_refl eq_refl eq_refl eq_refl eq_refl) ltac:(simpl; lia)).
  vm_compute. reflexivity.
Defined.
